(** * go-johanson: a streaming JSON writer (streamwriter.go)

    A shallow embedding of [streamwriter.go].  Go pointers become addresses
    into typed stores, methods become functions in a state-and-panic monad,
    and the callbacks taken by [Array] and [Object] are functions of the
    same monad, so a Go closure is modelled by a Rocq closure.  The
    caller's sink ([io.Writer]) and the marshaler ([json.Marshal]) are
    interfaces the model is parametric in; [strings.Builder], the failing
    sink of the test file and a small marshaler instantiate them.

    The file has three parts: the model of the package, the vocabulary of
    the properties, and the properties with their proofs. *)

From Stdlib Require Import ZArith NArith Ascii String DecimalString.
From stdpp Require Import base option list.

#[local] Set Warnings "-register-all".

Local Open Scope Z_scope.
Local Open Scope list_scope.

(** ** Bytes, errors and the collaborators of the package *)

Abbreviation bytes := (list Byte.byte).

(** The Go conversion [[]byte(s)]. *)
Definition bytes_of (s : string) : bytes := list_byte_of_string s.

(** Go's [error] values, identified by their message. *)
Definition error := string.

(** [strconv.FormatInt(val, 10)] and [strconv.FormatUint(val, 10)]. *)
Definition FormatInt (val : Z) : string := NilZero.string_of_int (Z.to_int val).
Definition FormatUint (val : N) : string := NilZero.string_of_uint (N.to_uint val).

(** The [io.Writer] interface: a sink of some state type with a [Write]
    method returning the new sink, the count written and an optional error. *)
Class Writer (S : Type) := io_Write : S -> bytes -> S * (Z * option error).
Global Hint Mode Writer ! : typeclass_instances.

(** The part of [encoding/json] the package calls: [json.Marshal] on a
    boxed value ([interface{}]).  The package boxes a [float64], a [string]
    or a [map[string]interface{}], or passes on the caller's value. *)
Class Json := {
  any : Type;
  float64 : Type;
  anyMap : Type;
  box_float64 : float64 -> any;
  box_string : string -> any;
  box_map : anyMap -> any;
  json_Marshal : any -> bytes * option error
}.

(** ** Results: a Go call returns or panics *)

Inductive result (A : Type) : Type :=
| Ok (a : A)
| Panic.
Arguments Ok {A} a.
Arguments Panic {A}.

(** A method runs on a memory of type [H], changes it, and returns or
    panics. *)
Definition M (H A : Type) : Type := H -> result (A * H).

Definition ret {H A} (a : A) : M H A := fun h => Ok (a, h).
Definition bind {H A B} (m : M H A) (k : A -> M H B) : M H B :=
  fun h => match m h with Ok (a, h') => k a h' | Panic => Panic end.
Definition panic {H A} : M H A := fun _ => Panic.
Definition get {H} : M H H := fun h => Ok (h, h).

Declare Scope go_scope.
Delimit Scope go_scope with go.
Notation "x <- m ;; k" := (bind m (fun x => k))
  (at level 100, m at next level, k at level 200, right associativity) : go_scope.
Notation "m ;; k" := (bind m (fun _ => k))
  (at level 100, k at level 200, right associativity) : go_scope.
Local Open Scope go_scope.

Section Model.
Context {S : Type} {WS : Writer S} {J : Json}.

(** ** The data model *)

(** [type writerWrapper struct { w io.Writer; Err error }] *)
Record writerWrapper := { ww_w : S; Err : option error }.

(** An [io.Writer] field of a [val] or an [obj]: nil, or the one
    [*writerWrapper] that [NewStreamWriter] made for the document. *)
Inductive writer_ref := the_wrapper.
Definition io_Writer := option writer_ref.

(** The [jsonContext] interface and its three implementations.  A [*bool]
    always points at the [paused] field of a [val] and is modelled by the
    address of that [val].  A [*jsonContextArray] is an address, since its
    [nonEmpty] field is mutated; a [*jsonContextObjectItem] is never
    mutated and is kept by value. *)
Inductive jsonContext :=
| jsonContextSingle (paused : nat)
| jsonContextArrayPtr (c : nat)
| jsonContextObjectItem (key : string) (obj : nat).

Record jsonContextArray := { arr_paused : nat; arr_nonEmpty : bool }.

Record val := { val_w : io_Writer; val_ctx : option jsonContext; val_paused : bool }.

Record obj := { obj_w : io_Writer; obj_nonEmpty : bool; obj_paused : bool }.

(** [V = *val] and [K = *obj]; [None] is the nil pointer. *)
Definition V := option nat.
Definition K := option nat.

(** The memory of one document: the wrapper around the caller's sink and
    the stores of the three mutable struct types.  [locals] holds the handle
    variables of the calling code that its closures assign to; no function
    of the package reads or writes them. *)
Record heap := {
  wrapper : writerWrapper;
  vals : list val;
  arrs : list jsonContextArray;
  objs : list obj;
  locals : list (string * V)
}.

Definition is_nil {A} (x : option A) : bool :=
  match x with None => true | Some _ => false end.

(** ** Memory access

    Dereferencing an address that is not in its store panics; the package
    only ever holds addresses it has allocated. *)

Definition load_val (p : nat) : M heap val :=
  fun h => match vals h !! p with Some x => Ok (x, h) | None => Panic end.
Definition load_arr (c : nat) : M heap jsonContextArray :=
  fun h => match arrs h !! c with Some x => Ok (x, h) | None => Panic end.
Definition load_obj (o : nat) : M heap obj :=
  fun h => match objs h !! o with Some x => Ok (x, h) | None => Panic end.

Definition upd_vals (f : list val -> list val) (h : heap) : heap :=
  {| wrapper := wrapper h; vals := f (vals h); arrs := arrs h; objs := objs h;
     locals := locals h |}.
Definition upd_arrs (f : list jsonContextArray -> list jsonContextArray) (h : heap) : heap :=
  {| wrapper := wrapper h; vals := vals h; arrs := f (arrs h); objs := objs h;
     locals := locals h |}.
Definition upd_objs (f : list obj -> list obj) (h : heap) : heap :=
  {| wrapper := wrapper h; vals := vals h; arrs := arrs h; objs := f (objs h);
     locals := locals h |}.
Definition upd_wrapper (f : writerWrapper -> writerWrapper) (h : heap) : heap :=
  {| wrapper := f (wrapper h); vals := vals h; arrs := arrs h; objs := objs h;
     locals := locals h |}.
Definition upd_locals (f : list (string * V) -> list (string * V)) (h : heap) : heap :=
  {| wrapper := wrapper h; vals := vals h; arrs := arrs h; objs := objs h;
     locals := f (locals h) |}.

Definition store_val (p : nat) (x : val) : M heap unit :=
  fun h => Ok (tt, upd_vals (fun l => <[p := x]> l) h).
Definition store_arr (c : nat) (x : jsonContextArray) : M heap unit :=
  fun h => Ok (tt, upd_arrs (fun l => <[c := x]> l) h).
Definition store_obj (o : nat) (x : obj) : M heap unit :=
  fun h => Ok (tt, upd_objs (fun l => <[o := x]> l) h).

(** Allocation ([&val{...}], a local struct whose address is taken). *)
Definition new_val (x : val) : M heap nat :=
  fun h => Ok (length (vals h), upd_vals (fun l => l ++ [x]) h).
Definition new_arr (x : jsonContextArray) : M heap nat :=
  fun h => Ok (length (arrs h), upd_arrs (fun l => l ++ [x]) h).
Definition new_obj (x : obj) : M heap nat :=
  fun h => Ok (length (objs h), upd_objs (fun l => l ++ [x]) h).

(** Field assignments [v.w = ...], [v.ctx = ...], [*p = on] ... *)
Definition set_val_w (p : nat) (w : io_Writer) : M heap unit :=
  x <- load_val p ;;
  store_val p {| val_w := w; val_ctx := val_ctx x; val_paused := val_paused x |}.
Definition set_val_ctx (p : nat) (c : option jsonContext) : M heap unit :=
  x <- load_val p ;;
  store_val p {| val_w := val_w x; val_ctx := c; val_paused := val_paused x |}.
Definition set_val_paused (p : nat) (on : bool) : M heap unit :=
  x <- load_val p ;;
  store_val p {| val_w := val_w x; val_ctx := val_ctx x; val_paused := on |}.
Definition set_arr_nonEmpty (c : nat) (b : bool) : M heap unit :=
  x <- load_arr c ;;
  store_arr c {| arr_paused := arr_paused x; arr_nonEmpty := b |}.
Definition set_obj_w (o : nat) (w : io_Writer) : M heap unit :=
  x <- load_obj o ;;
  store_obj o {| obj_w := w; obj_nonEmpty := obj_nonEmpty x; obj_paused := obj_paused x |}.
Definition set_obj_nonEmpty (o : nat) (b : bool) : M heap unit :=
  x <- load_obj o ;;
  store_obj o {| obj_w := obj_w x; obj_nonEmpty := b; obj_paused := obj_paused x |}.
Definition set_obj_paused (o : nat) (on : bool) : M heap unit :=
  x <- load_obj o ;;
  store_obj o {| obj_w := obj_w x; obj_nonEmpty := obj_nonEmpty x; obj_paused := on |}.

(** ** writerWrapper *)

(** [func (ww *writerWrapper) Write(p []byte) (n int, err error)] *)
Definition writerWrapper_Write (ww : writerWrapper) (p : bytes)
  : writerWrapper * (Z * option error) :=
  let '(w', (n, err)) := io_Write (ww_w ww) p in
  match err with
  | Some e => ({| ww_w := w'; Err := Some e |}, (n, err))
  | None => ({| ww_w := w'; Err := Err ww |}, (n, err))
  end.

(** A call [w.Write(p)] through an [io.Writer] field, its results dropped
    as every caller in the package does.  On a nil interface it panics. *)
Definition Write (w : io_Writer) (p : bytes) : M heap unit :=
  match w with
  | None => panic
  | Some the_wrapper =>
      fun h => Ok (tt, upd_wrapper (fun ww => fst (writerWrapper_Write ww p)) h)
  end.

(** ** Contexts *)

(** [func (ctx *jsonContextArray) prewrite(w io.Writer) bool] *)
Definition jsonContextArray_prewrite (c : nat) (w : io_Writer) : M heap bool :=
  ctx <- load_arr c ;;
  (if arr_nonEmpty ctx then Write w (bytes_of ",") else ret tt) ;;
  set_arr_nonEmpty c true ;;
  ret false.

(** [func (ctx *jsonContextArray) pause(on bool)] *)
Definition jsonContextArray_pause (c : nat) (on : bool) : M heap unit :=
  ctx <- load_arr c ;;
  set_val_paused (arr_paused ctx) on.

(** [func (jsonContextSingle) prewrite(w io.Writer) bool] *)
Definition jsonContextSingle_prewrite (w : io_Writer) : M heap bool :=
  ret true.

(** [func (ctx jsonContextSingle) pause(on bool)] *)
Definition jsonContextSingle_pause (paused : nat) (on : bool) : M heap unit :=
  set_val_paused paused on.

(** [func (o *obj) prewrite() bool] *)
Definition obj_prewrite (o : nat) : M heap bool :=
  x <- load_obj o ;;
  if is_nil (obj_w x) && obj_paused x then ret false
  else
    (if obj_nonEmpty x then Write (obj_w x) (bytes_of ",") else ret tt) ;;
    set_obj_nonEmpty o true ;;
    ret true.

(** [func (ctx *jsonContextObjectItem) pause(on bool)] *)
Definition jsonContextObjectItem_pause (o : nat) (on : bool) : M heap unit :=
  set_obj_paused o on.

(** [func (ctx *jsonContextObjectItem) prewrite(w io.Writer) bool] *)
Definition jsonContextObjectItem_prewrite (key : string) (o : nat) (w : io_Writer)
  : M heap bool :=
  allowed <- obj_prewrite o ;;
  (if allowed then
     Write w (fst (json_Marshal (box_string key))) ;;
     Write w (bytes_of ":")
   else ret tt) ;;
  ret true.

(** Dynamic dispatch on the [jsonContext] interface. *)
Definition ctx_prewrite (ctx : jsonContext) (w : io_Writer) : M heap bool :=
  match ctx with
  | jsonContextSingle _ => jsonContextSingle_prewrite w
  | jsonContextArrayPtr c => jsonContextArray_prewrite c w
  | jsonContextObjectItem key o => jsonContextObjectItem_prewrite key o w
  end.

Definition ctx_pause (ctx : jsonContext) (on : bool) : M heap unit :=
  match ctx with
  | jsonContextSingle paused => jsonContextSingle_pause paused on
  | jsonContextArrayPtr c => jsonContextArray_pause c on
  | jsonContextObjectItem _ o => jsonContextObjectItem_pause o on
  end.

(** ** Value slots *)

(** [func (v *val) prewrite() (ok bool, single bool)] *)
Definition val_prewrite (v : V) : M heap (bool * bool) :=
  match v with
  | None => ret (false, false)
  | Some p =>
      x <- load_val p ;;
      match val_w x, val_ctx x with
      | Some _, Some ctx =>
          if val_paused x then ret (false, false)
          else single <- ctx_prewrite ctx (val_w x) ;; ret (true, single)
      | _, _ => ret (false, false)
      end
  end.

(** [func (v *val) postwrite(single bool)] *)
Definition val_postwrite (v : V) (single : bool) : M heap unit :=
  match v with
  | None => panic
  | Some p =>
      x <- load_val p ;;
      match val_ctx x with
      | Some ctx =>
          ctx_pause ctx false ;;
          if single then set_val_ctx p None else ret tt
      | None => ret tt
      end
  end.

(** The statement [v.w.Write(p)]. *)
Definition val_Write (v : V) (p : bytes) : M heap unit :=
  match v with
  | None => panic
  | Some a => x <- load_val a ;; Write (val_w x) p
  end.

(** The statement [v.ctx.pause(on)]; a nil interface panics. *)
Definition val_ctx_pause (v : V) (on : bool) : M heap unit :=
  match v with
  | None => panic
  | Some a =>
      x <- load_val a ;;
      match val_ctx x with Some ctx => ctx_pause ctx on | None => panic end
  end.

(** [func (v *val) Null()] *)
Definition val_Null (v : V) : M heap unit :=
  r <- val_prewrite v ;;
  if fst r then
    val_Write v (bytes_of "null") ;;
    val_postwrite v (snd r)
  else ret tt.

(** [func (v *val) Marshal(value interface{}) error] *)
Definition val_Marshal (v : V) (value : any) : M heap (option error) :=
  r <- val_prewrite v ;;
  if fst r then
    let (bs, err) := json_Marshal value in
    (if is_nil err then val_Write v bs else ret tt) ;;
    val_postwrite v (snd r) ;;
    match err with
    | Some e => ret (Some e)
    | None => ret None
    end
  else ret None.

(** [func (v *val) Bool(val bool)] *)
Definition val_Bool (v : V) (b : bool) : M heap unit :=
  r <- val_prewrite v ;;
  if fst r then
    (if b then val_Write v (bytes_of "true") else val_Write v (bytes_of "false")) ;;
    val_postwrite v (snd r)
  else ret tt.

(** [func (v *val) Int(val int64)] *)
Definition val_Int (v : V) (z : Z) : M heap unit :=
  r <- val_prewrite v ;;
  if fst r then
    val_Write v (bytes_of (FormatInt z)) ;;
    val_postwrite v (snd r)
  else ret tt.

(** [func (v *val) Uint(val uint64)] *)
Definition val_Uint (v : V) (n : N) : M heap unit :=
  r <- val_prewrite v ;;
  if fst r then
    val_Write v (bytes_of (FormatUint n)) ;;
    val_postwrite v (snd r)
  else ret tt.

(** [func (v *val) Float(value float64)] *)
Definition val_Float (v : V) (value : float64) : M heap unit :=
  r <- val_prewrite v ;;
  if fst r then
    val_Write v (fst (json_Marshal (box_float64 value))) ;;
    val_postwrite v (snd r)
  else ret tt.

(** [func (v *val) String(s string)] *)
Definition val_String (v : V) (s : string) : M heap unit :=
  r <- val_prewrite v ;;
  if fst r then
    val_Write v (fst (json_Marshal (box_string s))) ;;
    val_postwrite v (snd r)
  else ret tt.

(** [func (v *val) Array(fn func(V))] *)
Definition val_Array (v : V) (fn : option (V -> M heap unit)) : M heap unit :=
  r <- val_prewrite v ;;
  if fst r then
    val_ctx_pause v true ;;
    val_Write v (bytes_of "[") ;;
    match fn, v with
    | Some f, Some p =>
        x <- load_val p ;;
        a <- new_val {| val_w := val_w x; val_ctx := None; val_paused := false |} ;;
        ctx <- new_arr {| arr_paused := a; arr_nonEmpty := false |} ;;
        set_val_ctx a (Some (jsonContextArrayPtr ctx)) ;;
        f (Some a) ;;
        set_val_w a None
    | Some _, None => panic
    | None, _ => ret tt
    end ;;
    val_Write v (bytes_of "]") ;;
    val_postwrite v (snd r)
  else ret tt.

(** ** Object builders *)

(** [func (o *obj) Item(key string) V] *)
Definition obj_Item (o : K) (key : string) : M heap V :=
  match o with
  | None => panic
  | Some q =>
      x <- load_obj q ;;
      if negb (obj_paused x) then
        set_obj_paused q true ;;
        p <- new_val {| val_w := obj_w x;
                        val_ctx := Some (jsonContextObjectItem key q);
                        val_paused := false |} ;;
        ret (Some p)
      else ret None
  end.

(** The Go slice expression [b[lo:hi]] within bounds. *)
Definition slice (b : bytes) (lo hi : nat) : bytes := take (hi - lo) (drop lo b).

(** [func (o *obj) Marshal(anyMap map[string]interface{}) error] *)
Definition obj_Marshal (o : K) (anyMap : anyMap) : M heap (option error) :=
  let (bs, err) := json_Marshal (box_map anyMap) in
  match err with
  | Some e => ret (Some e)
  | None =>
      (if (2 <? length bs)%nat then
         match o with
         | None => panic
         | Some q =>
             allowed <- obj_prewrite q ;;
             if allowed then
               x <- load_obj q ;;
               Write (obj_w x) (slice bs 1 (length bs - 1))
             else ret tt
         end
       else ret tt) ;;
      ret None
  end.

(** [func (v *val) Object(fn func(K))] *)
Definition val_Object (v : V) (fn : option (K -> M heap unit)) : M heap unit :=
  r <- val_prewrite v ;;
  if fst r then
    val_ctx_pause v true ;;
    val_Write v (bytes_of "{") ;;
    match fn, v with
    | Some f, Some p =>
        x <- load_val p ;;
        jso <- new_obj {| obj_w := val_w x; obj_nonEmpty := false; obj_paused := false |} ;;
        f (Some jso) ;;
        set_obj_w jso None
    | Some _, None => panic
    | None, _ => ret tt
    end ;;
    val_Write v (bytes_of "}") ;;
    val_postwrite v (snd r)
  else ret tt.

(** ** Introspection and the entry point *)

(** [func (v *val) Finished() bool] *)
Definition val_Finished (v : V) : M heap bool :=
  match v with
  | None => panic
  | Some p => x <- load_val p ;; ret (is_nil (val_ctx x))
  end.

(** [func (v *val) Error() error]: the type assertion succeeds exactly on
    a non-nil writer, which is the wrapper. *)
Definition val_Error (v : V) : M heap (option error) :=
  match v with
  | None => panic
  | Some p =>
      x <- load_val p ;;
      match val_w x with
      | Some the_wrapper => h <- get ;; ret (Err (wrapper h))
      | None => ret None
      end
  end.

(** [func NewStreamWriter(w io.Writer) V]: the memory holding the new
    wrapper and the root slot, and the address of that slot. *)
Definition NewStreamWriter (w : S) : heap * V :=
  ({| wrapper := {| ww_w := w; Err := None |};
      vals := [ {| val_w := Some the_wrapper;
                   val_ctx := Some (jsonContextSingle 0);
                   val_paused := false |} ];
      arrs := []; objs := []; locals := [] |},
   Some 0%nat).

(** ** Variables of the calling code

    [item = o.Item(key)] inside a closure, with [var item V] declared
    outside it, is an assignment to a captured variable, of type [V] or
    [K].  A variable never assigned holds the nil handle. *)
Definition assign (x : string) (v : V) : M heap unit :=
  fun h => Ok (tt, upd_locals (fun l => (x, v) :: l) h).

Fixpoint lookup_local (x : string) (l : list (string * V)) : V :=
  match l with
  | [] => None
  | (y, v) :: l' => if String.eqb x y then v else lookup_local x l'
  end.

Definition read (x : string) : M heap V :=
  fun h => Ok (lookup_local x (locals h), h).

End Model.

Arguments heap S : clear implicits.
Arguments writerWrapper S : clear implicits.

(** ** Sinks *)

(** [strings.Builder]: [Write] appends and never fails. *)
Definition Builder := bytes.
#[export] Instance Builder_Writer : Writer Builder :=
  fun b p => (b ++ p, (Z.of_nat (length p), None)).

(** The failing sink of the test file:
    [type StringBuilderWrapper struct { strings.Builder; Limit int }],
    whose [Write] appends and then reports an error when the length exceeds
    the limit. *)
Record StringBuilderWrapper := { sbw_Builder : Builder; Limit : Z }.

Definition StringBuilderWrapper_Write (sbw : StringBuilderWrapper) (p : bytes)
  : StringBuilderWrapper * (Z * option error) :=
  let '(b, (n, err)) := io_Write (sbw_Builder sbw) p in
  let len := Z.of_nat (length b) in
  let err :=
    match err with
    | None =>
        if Limit sbw <? len
        then Some ("Buffer length " ++ FormatInt len ++ " exceeds limit "
                   ++ FormatInt (Limit sbw) ++ ".")%string
        else None
    | Some e => Some e
    end in
  ({| sbw_Builder := b; Limit := Limit sbw |}, (n, err)).

#[export] Instance StringBuilderWrapper_Writer : Writer StringBuilderWrapper :=
  StringBuilderWrapper_Write.

(** ** A small instance of the marshaler

    Enough of [json.Marshal] to run the scenarios of the test file: values
    built from null, booleans, integers, strings without control
    characters, slices, maps listed in key order, and functions, which
    cannot be marshaled. *)
Inductive gv :=
| GNull
| GBool (b : bool)
| GInt (z : Z)
| GString (s : string)
| GSlice (l : list gv)
| GMap (kvs : list (string * gv))
| GFunc.

Definition dquote : bytes := [Byte.x22].

Definition escape_byte (b : Byte.byte) : bytes :=
  match b with
  | Byte.x22 => [Byte.x5c; Byte.x22]
  | Byte.x5c => [Byte.x5c; Byte.x5c]
  | _ => [b]
  end.

Definition quote (s : string) : bytes :=
  dquote ++ concat (map escape_byte (bytes_of s)) ++ dquote.

(** [sep]-joined concatenation. *)
Fixpoint join (sep : bytes) (l : list bytes) : bytes :=
  match l with
  | [] => []
  | [x] => x
  | x :: l' => x ++ sep ++ join sep l'
  end.

Fixpoint sequence {A} (l : list (option A)) : option (list A) :=
  match l with
  | [] => Some []
  | x :: l' =>
      match x, sequence l' with
      | Some a, Some r => Some (a :: r)
      | _, _ => None
      end
  end.

Fixpoint gv_encode (v : gv) : option bytes :=
  match v with
  | GNull => Some (bytes_of "null")
  | GBool true => Some (bytes_of "true")
  | GBool false => Some (bytes_of "false")
  | GInt z => Some (bytes_of (FormatInt z))
  | GString s => Some (quote s)
  | GSlice l =>
      match sequence (map gv_encode l) with
      | Some bs => Some (bytes_of "[" ++ join (bytes_of ",") bs ++ bytes_of "]")
      | None => None
      end
  | GMap kvs =>
      match sequence (map (fun kv =>
                match gv_encode (snd kv) with
                | Some b => Some (quote (fst kv) ++ bytes_of ":" ++ b)
                | None => None
                end) kvs) with
      | Some bs => Some (bytes_of "{" ++ join (bytes_of ",") bs ++ bytes_of "}")
      | None => None
      end
  | GFunc => None
  end.

#[export] Instance gv_Json : Json := {|
  any := gv;
  float64 := Z;
  anyMap := list (string * gv);
  box_float64 := GInt;
  box_string := GString;
  box_map := GMap;
  json_Marshal := fun v =>
    match gv_encode v with
    | Some b => (b, None)
    | None => ([], Some "json: unsupported type"%string)
    end
|}.

(** Expected outputs are written with ['] for the double quote. *)
Definition js (s : string) : bytes :=
  map (fun b => match b with Byte.x27 => Byte.x22 | _ => b end) (bytes_of s).

(** The bytes in a [strings.Builder] after running [prog] on the root slot
    of a new stream writer over an empty builder. *)
Definition output {J : Json} (prog : V -> M (heap Builder) unit) : result bytes :=
  let (h, v) := NewStreamWriter ([] : Builder) in
  match prog v h with
  | Ok (_, h') => Ok (ww_w (wrapper h'))
  | Panic => Panic
  end.

(** * Vocabulary of the properties *)

Section Vocabulary.
Context {S : Type} {WS : Writer S}.
Implicit Types h : heap S.

(** ** Writes seen from the sink *)

(** The sink after the writes [ps] made directly on it, and the error
    result of each of them in order. *)
Fixpoint sink_after (w : S) (ps : list bytes) : S :=
  match ps with
  | [] => w
  | p :: ps' => sink_after (fst (io_Write w p)) ps'
  end.

Fixpoint sink_errors (w : S) (ps : list bytes) : list (option error) :=
  match ps with
  | [] => []
  | p :: ps' => snd (snd (io_Write w p)) :: sink_errors (fst (io_Write w p)) ps'
  end.

(** The most recent error of a list of results, [e0] when none failed. *)
Fixpoint last_error (e0 : option error) (rs : list (option error)) : option error :=
  match rs with
  | [] => e0
  | Some e :: rs' => last_error (Some e) rs'
  | None :: rs' => last_error e0 rs'
  end.

(** The first error of a list of results, if any. *)
Fixpoint first_error (rs : list (option error)) : option error :=
  match rs with
  | [] => None
  | Some e :: _ => Some e
  | None :: rs' => first_error rs'
  end.

(** The writes [ps] made one after the other through an [io.Writer] field. *)
Fixpoint Write_all (w : io_Writer) (ps : list bytes) : M (heap S) unit :=
  match ps with
  | [] => ret tt
  | p :: ps' => Write w p ;; Write_all w ps'
  end.

(** A chunk handed to the wrapper, and from it to the sink. *)
Definition emit (p : bytes) h : heap S :=
  upd_wrapper (fun ww => fst (writerWrapper_Write ww p)) h.

(** ** Slots *)

(** A context exactly one value may be written through. *)
Definition single_valued (ctx : jsonContext) : bool :=
  match ctx with
  | jsonContextArrayPtr _ => false
  | _ => true
  end.

Definition ctx_of h (p : nat) : option jsonContext :=
  match vals h !! p with Some x => val_ctx x | None => None end.

(** The slot at [p] is backed by a single-value context. *)
Definition single_slot h (p : nat) : bool :=
  match ctx_of h p with Some ctx => single_valued ctx | None => false end.

(** The pointers held by a context lead to live structs. *)
Definition ctx_live h (ctx : jsonContext) : bool :=
  match ctx with
  | jsonContextSingle paused => negb (is_nil (vals h !! paused))
  | jsonContextArrayPtr c =>
      match arrs h !! c with
      | Some a => negb (is_nil (vals h !! arr_paused a))
      | None => false
      end
  | jsonContextObjectItem _ o => negb (is_nil (objs h !! o))
  end.

(** The context is live, and the builder of an item context still has its
    sink or is held paused by the item. *)
Definition ctx_ok h (ctx : jsonContext) : bool :=
  match ctx with
  | jsonContextSingle paused => negb (is_nil (vals h !! paused))
  | jsonContextArrayPtr c =>
      match arrs h !! c with
      | Some a => negb (is_nil (vals h !! arr_paused a))
      | None => false
      end
  | jsonContextObjectItem _ o =>
      match objs h !! o with
      | Some x => negb (is_nil (obj_w x)) || obj_paused x
      | None => false
      end
  end.

(** A slot whose next write goes through: it has the sink and a context,
    and is not paused. *)
Definition writable h (p : nat) : bool :=
  match vals h !! p with
  | Some x =>
      match val_w x, val_ctx x with
      | Some _, Some ctx => negb (val_paused x) && ctx_ok h ctx
      | _, _ => false
      end
  | None => false
  end.

(** ** Write operations on a slot *)

Context {J : Json}.

Inductive scalar :=
| SNull
| SBool (b : bool)
| SInt (z : Z)
| SUint (n : N)
| SFloat (f : float64)
| SString (s : string).

(** The method of [val] that writes the scalar. *)
Definition write_scalar (v : V) (sc : scalar) : M (heap S) unit :=
  match sc with
  | SNull => val_Null v
  | SBool b => val_Bool v b
  | SInt z => val_Int v z
  | SUint n => val_Uint v n
  | SFloat f => val_Float v f
  | SString s => val_String v s
  end.

(** The JSON text of a scalar: the literal tokens, base-10 digits, and the
    output of the standard encoder for floats and strings. *)
Definition scalar_text (sc : scalar) : bytes :=
  match sc with
  | SNull => bytes_of "null"
  | SBool true => bytes_of "true"
  | SBool false => bytes_of "false"
  | SInt z => bytes_of (FormatInt z)
  | SUint n => bytes_of (FormatUint n)
  | SFloat f => fst (json_Marshal (box_float64 f))
  | SString s => fst (json_Marshal (box_string s))
  end.

(** Any of the value-writing methods of a slot, with its arguments.  The
    result is the error of [Marshal], nil for the methods that return
    nothing. *)
Inductive write_op :=
| OpScalar (sc : scalar)
| OpMarshal (value : any)
| OpArray (fn : option (V -> M (heap S) unit))
| OpObject (fn : option (K -> M (heap S) unit)).

Definition do_write (op : write_op) (v : V) : M (heap S) (option error) :=
  match op with
  | OpScalar sc => write_scalar v sc ;; ret None
  | OpMarshal value => val_Marshal v value
  | OpArray fn => val_Array v fn ;; ret None
  | OpObject fn => val_Object v fn ;; ret None
  end.

(** What a write method does between [prewrite] and [postwrite], with the
    error it will return. *)
Definition payload (op : write_op) (v : V) : M (heap S) (option error) :=
  match op with
  | OpScalar sc => val_Write v (scalar_text sc) ;; ret None
  | OpMarshal value =>
      (if is_nil (snd (json_Marshal value))
       then val_Write v (fst (json_Marshal value)) else ret tt) ;;
      ret (snd (json_Marshal value))
  | OpArray fn =>
      val_ctx_pause v true ;;
      val_Write v (bytes_of "[") ;;
      match fn, v with
      | Some f, Some p =>
          x <- load_val p ;;
          a <- new_val {| val_w := val_w x; val_ctx := None; val_paused := false |} ;;
          ctx <- new_arr {| arr_paused := a; arr_nonEmpty := false |} ;;
          set_val_ctx a (Some (jsonContextArrayPtr ctx)) ;;
          f (Some a) ;;
          set_val_w a None
      | Some _, None => panic
      | None, _ => ret tt
      end ;;
      val_Write v (bytes_of "]") ;;
      ret None
  | OpObject fn =>
      val_ctx_pause v true ;;
      val_Write v (bytes_of "{") ;;
      match fn, v with
      | Some f, Some p =>
          x <- load_val p ;;
          jso <- new_obj {| obj_w := val_w x; obj_nonEmpty := false; obj_paused := false |} ;;
          f (Some jso) ;;
          set_obj_w jso None
      | Some _, None => panic
      | None, _ => ret tt
      end ;;
      val_Write v (bytes_of "}") ;;
      ret None
  end.

(** Items requested one after the other from a builder, each handle
    obtained being given one write. *)
Fixpoint items (o : K) (l : list (string * write_op)) : M (heap S) unit :=
  match l with
  | [] => ret tt
  | (key, op) :: l' =>
      v <- obj_Item o key ;; _ <- do_write op v ;; items o l'
  end.

(** ** Documents

    A JSON document as the calling code would write it with the package:
    scalars, values handed to [Marshal], arrays and objects. *)
Inductive elem :=
| EScalar (sc : scalar)
| EMarshal (value : any)
| EArray (es : list elem)
| EObject (kvs : list (string * elem)).

(** [f] on each element of a list in turn. *)
Definition each {A} (f : A -> M (heap S) unit) : list A -> M (heap S) unit :=
  fix go (l : list A) : M (heap S) unit :=
    match l with
    | [] => ret tt
    | x :: l' => f x ;; go l'
    end.

(** The calls that write the document through a slot: an array through
    [Array] and one write per element on the handle passed to the callback,
    an object through [Object] and one [Item] and write per pair. *)
Fixpoint write_elem (e : elem) (v : V) : M (heap S) unit :=
  match e with
  | EScalar sc => write_scalar v sc
  | EMarshal value => _ <- val_Marshal v value ;; ret tt
  | EArray es =>
      val_Array v (Some (fun a => each (fun e' => write_elem e' a) es))
  | EObject kvs =>
      val_Object v (Some (fun o =>
        each (fun kv => let '(key, e') := kv in
                        item <- obj_Item o key ;; write_elem e' item) kvs))
  end.

(** The write of a document as one of the write operations. *)
Definition elem_op (e : elem) : write_op :=
  match e with
  | EScalar sc => OpScalar sc
  | EMarshal value => OpMarshal value
  | EArray es => OpArray (Some (fun a => each (fun e' => write_elem e' a) es))
  | EObject kvs =>
      OpObject (Some (fun o =>
        each (fun kv => let '(key, e') := kv in
                        item <- obj_Item o key ;; write_elem e' item) kvs))
  end.

(** The encoder's text of a key. *)
Definition key_text (key : string) : bytes := fst (json_Marshal (box_string key)).

(** The JSON text of a document. *)
Fixpoint encode (e : elem) : bytes :=
  match e with
  | EScalar sc => scalar_text sc
  | EMarshal value => fst (json_Marshal value)
  | EArray es => bytes_of "[" ++ join (bytes_of ",") (map encode es) ++ bytes_of "]"
  | EObject kvs =>
      bytes_of "{"
      ++ join (bytes_of ",")
           (map (fun kv => let '(key, e') := kv in
                           key_text key ++ bytes_of ":" ++ encode e') kvs)
      ++ bytes_of "}"
  end.

(** Every [Marshal] in the document succeeds. *)
Fixpoint marshals_ok (e : elem) : bool :=
  match e with
  | EScalar _ => true
  | EMarshal value => is_nil (snd (json_Marshal value))
  | EArray es => forallb marshals_ok es
  | EObject kvs => forallb (fun kv => let '(_, e') := kv in marshals_ok e') kvs
  end.

(** ** The three places a slot can stand in *)

Inductive kind :=
| KRoot
| KArr (c : nat) (nonEmpty : bool)
| KItem (key : string) (o : nat) (nonEmpty : bool).

Definition single_of (k : kind) : bool :=
  match k with KArr _ _ => false | _ => true end.

(** What [prewrite] sends to the sink ahead of the value. *)
Definition sep_of (k : kind) : bytes :=
  match k with
  | KRoot => []
  | KArr _ b => if b then bytes_of "," else []
  | KItem key _ b => (if b then bytes_of "," else []) ++ key_text key ++ bytes_of ":"
  end.

Definition ctx_for (k : kind) (p : nat) : jsonContext :=
  match k with
  | KRoot => jsonContextSingle p
  | KArr c _ => jsonContextArrayPtr c
  | KItem key o _ => jsonContextObjectItem key o
  end.

(** The kind once a value has gone through. *)
Definition touched (k : kind) : kind :=
  match k with
  | KRoot => KRoot
  | KArr c _ => KArr c true
  | KItem key o _ => KItem key o true
  end.

Definition arr_of (k : kind) : option nat :=
  match k with KArr c _ => Some c | _ => None end.
Definition obj_of (k : kind) : option nat :=
  match k with KItem _ o _ => Some o | _ => None end.

(** The slot at [p] stands in place [k], with its own [paused] flag [pa]:
    the root slot pauses itself, an array slot is paused through its array
    context, and an item slot keeps its builder paused. *)
Definition slot (k : kind) (p : nat) (pa : bool) h : Prop :=
  vals h !! p = Some {| val_w := Some the_wrapper; val_ctx := Some (ctx_for k p);
                        val_paused := pa |}
  /\ match k with
     | KRoot => True
     | KArr c b => arrs h !! c = Some {| arr_paused := p; arr_nonEmpty := b |}
     | KItem _ o b =>
         pa = false
         /\ objs h !! o = Some {| obj_w := Some the_wrapper; obj_nonEmpty := b;
                                  obj_paused := true |}
     end.

(** The slot's own flag while the callback of its composite runs. *)
Definition paused_during (k : kind) : bool :=
  match k with KItem _ _ _ => false | _ => true end.

(** The slot after its write: a single-use slot is finished and an item's
    builder is released; an array slot is ready for the next element. *)
Definition retired (k : kind) (p : nat) h : Prop :=
  match k with
  | KRoot =>
      vals h !! p = Some {| val_w := Some the_wrapper; val_ctx := None;
                            val_paused := false |}
  | KArr c _ => slot (KArr c true) p false h
  | KItem _ o _ =>
      vals h !! p = Some {| val_w := Some the_wrapper; val_ctx := None;
                            val_paused := false |}
      /\ objs h !! o = Some {| obj_w := Some the_wrapper; obj_nonEmpty := true;
                               obj_paused := false |}
  end.

(** Every struct of [h] other than the excepted ones is unchanged in [h'];
    [h'] may hold more structs. *)
Definition frame (ev ea eo : option nat) h (h' : heap S) : Prop :=
  (forall i x, ev <> Some i -> vals h !! i = Some x -> vals h' !! i = Some x)
  /\ (forall i x, ea <> Some i -> arrs h !! i = Some x -> arrs h' !! i = Some x)
  /\ (forall i x, eo <> Some i -> objs h !! i = Some x -> objs h' !! i = Some x).

(** An exception of a later frame is already excepted, or names a struct
    that did not exist yet. *)
Definition covered {A} (e' e : option nat) (l : list A) : Prop :=
  match e' with
  | None => True
  | Some i => e = Some i \/ l !! i = None
  end.

End Vocabulary.

(** The sink of the test file with limit 3, and two writes that both
    exceed it. *)
Definition small_sink : StringBuilderWrapper := {| sbw_Builder := []; Limit := 3 |}.
Definition two_failing_writes : list bytes := [bytes_of "12345"; bytes_of "67890"].

(** ** What a builder's [Marshal] leaves behind *)

(** The memory after the builder at [q], whose struct was [x], has had
    [inner] spliced in: the sink has received a comma when an item had been
    emitted before, then [inner], and the builder's [nonEmpty] flag is set. *)
Definition spliced (q : nat) (x : obj) (inner : bytes) (h : heap Builder)
  : heap Builder :=
  upd_objs (fun l => <[q := {| obj_w := obj_w x; obj_nonEmpty := true;
                                obj_paused := obj_paused x |}]> l)
    (upd_wrapper (fun ww =>
        {| ww_w := ww_w ww ++ (if obj_nonEmpty x then bytes_of "," else []) ++ inner;
           Err := Err ww |}) h).

(** Inside [v.Object] on a new stream writer, after [Item(x).Int(123)]:
    the builder at address 0 has emitted an item, and the map encodes to an
    object with the one item mA. *)
Definition one_item_written : heap Builder :=
  {| wrapper := {| ww_w := js "{'x':123"; Err := None |};
     vals := [ {| val_w := Some the_wrapper; val_ctx := Some (jsonContextSingle 0);
                  val_paused := true |};
               {| val_w := Some the_wrapper; val_ctx := None; val_paused := false |} ];
     arrs := [];
     objs := [ {| obj_w := Some the_wrapper; obj_nonEmpty := true;
                  obj_paused := false |} ];
     locals := [] |}.

(** ** Output of a document *)

(** The bytes in the sink. *)
Abbreviation out h := (ww_w (wrapper h)).

(** The texts [ts] each preceded by a comma, except the first one when
    [b] is unset: what a sequence of writes adds to the sink of an array or
    an object whose has-emitted flag was [b]. *)
Fixpoint joined (b : bool) (ts : list bytes) : bytes :=
  match ts with
  | [] => []
  | t :: ts' => (if b then bytes_of "," else []) ++ t ++ joined true ts'
  end.

(** The text of one pair of an object. *)
Definition pair_text {J : Json} (kv : string * elem) : bytes :=
  let '(key, e) := kv in key_text key ++ bytes_of ":" ++ encode e.

(** The total length of a list of texts. *)
Definition total_length (ts : list bytes) : nat := length (concat ts).

(** Writing the document [e] through a slot in place sends the separator
    of the place and the text of [e] to the sink, retires the slot, and
    leaves every other struct alone. *)
Definition writes_text {J : Json} (e : elem) : Prop :=
  forall k p (h : heap Builder),
    slot k p false h ->
    exists h',
      write_elem e (Some p) h = Ok (tt, h')
      /\ out h' = out h ++ sep_of k ++ encode e
      /\ retired k p h'
      /\ frame (Some p) (arr_of k) (obj_of k) h h'.

(** * Vocabulary of the further properties *)

(** ** The writes a document makes *)

Section Chunks.
Context {J : Json}.

(** The comma [prewrite] sends when a value has been emitted before. *)
Definition comma (b : bool) : list bytes := if b then [bytes_of ","] else [].

(** The writes [prewrite] makes ahead of a value, one chunk per [Write]. *)
Definition sep_chunks (k : kind) : list bytes :=
  match k with
  | KRoot => []
  | KArr _ b => comma b
  | KItem key _ b => comma b ++ [key_text key; bytes_of ":"]
  end.

(** The writes of a sequence of values in one array or object, [f] giving
    the writes of each value after its comma. *)
Definition chunk_seq {A} (f : A -> list bytes) : bool -> list A -> list bytes :=
  fix go (b : bool) (l : list A) : list bytes :=
    match l with
    | [] => []
    | x :: l' => comma b ++ f x ++ go true l'
    end.

(** The writes a document makes after the separator of its place, one
    chunk per call of [Write]: a scalar is one write, a value whose
    marshaling fails none, a composite writes its delimiters around the
    writes of its members. *)
Fixpoint chunks (e : elem) : list bytes :=
  match e with
  | EScalar sc => [scalar_text sc]
  | EMarshal value =>
      if is_nil (snd (json_Marshal value)) then [fst (json_Marshal value)] else []
  | EArray es => [bytes_of "["] ++ chunk_seq chunks false es ++ [bytes_of "]"]
  | EObject kvs =>
      [bytes_of "{"]
      ++ chunk_seq (fun kv => let '(key, e') := kv in
                              [key_text key; bytes_of ":"] ++ chunks e') false kvs
      ++ [bytes_of "}"]
  end.

End Chunks.

Section AnySink.
Context {S : Type} {WS : Writer S} {J : Json}.
Implicit Types h : heap S.

(** The wrapper after the writes [ps] made through it. *)
Definition wwrites (ww : writerWrapper S) (ps : list bytes) : writerWrapper S :=
  fold_left (fun ww p => fst (writerWrapper_Write ww p)) ps ww.

(** Writing the document [e] through a slot in place, over any sink: the
    call returns, the wrapper has received the writes of the separator and
    of the document in order, the slot is retired, and no other struct has
    changed. *)
Definition writes_chunks (e : elem) : Prop :=
  forall k p h,
    slot k p false h ->
    exists h',
      write_elem e (Some p) h = Ok (tt, h')
      /\ wrapper h' = wwrites (wrapper h) (sep_chunks k ++ chunks e)
      /\ retired k p h'
      /\ frame (Some p) (arr_of k) (obj_of k) h h'.

End AnySink.

(** The bytes a document sends after the separator of its place. *)
Definition sent_text {J : Json} (e : elem) : bytes := concat (chunks e).

(** ** Callbacks that also touch the slot they were opened from *)

Section Scripts.
Context {S : Type} {WS : Writer S} {J : Json}.

(** The check [if v.Finished() { panic(...) }]. *)
Definition probe_open (v : V) : M (heap S) unit :=
  f <- val_Finished v ;; if f then panic else ret tt.

(** A step of an array callback: a document written through the handle of
    the callback, any write on the slot [v] the array was opened from, or
    the check that [v] is not finished. *)
Inductive astep :=
| AElem (e : elem)
| AOuter (op : write_op (S := S))
| AProbe.

Definition run_astep (v a : V) (s : astep) : M (heap S) unit :=
  match s with
  | AElem e => write_elem e a
  | AOuter op => _ <- do_write op v ;; ret tt
  | AProbe => probe_open v
  end.

(** The documents among the steps. *)
Fixpoint aelems (l : list astep) : list elem :=
  match l with
  | [] => []
  | AElem e :: l' => e :: aelems l'
  | _ :: l' => aelems l'
  end.






End Scripts.

(** ** Handles without a sink *)

Section Severed.
Context {S : Type}.
Implicit Types h : heap S.

(** The slot at [a] has no sink reference. *)
Definition severed h (a : nat) : Prop :=
  exists x, vals h !! a = Some x /\ val_w x = None.

(** The builder at [o] has no sink reference. *)
Definition closed h (o : nat) : Prop :=
  exists x, objs h !! o = Some x /\ obj_w x = None.

(** Slots and builders without a sink in [h] are still without one in
    [h']. *)
Definition stays_cut h h' : Prop :=
  (forall a, severed h a -> severed h' a) /\ (forall o, closed h o -> closed h' o).

End Severed.

(** ** Memories and callbacks of the scenarios *)

(** A new stream writer over an empty [strings.Builder]. *)
Definition new_writer : heap Builder := fst (NewStreamWriter ([] : Builder)).

(** Inside the callback of [Array] on a new stream writer, after [Int(1)]:
    the root slot is paused, the slot of the array is at address 1 and its
    context has emitted an element. *)
Definition in_array : heap Builder :=
  {| wrapper := {| ww_w := js "[1"; Err := None |};
     vals := [ {| val_w := Some the_wrapper; val_ctx := Some (jsonContextSingle 0);
                  val_paused := true |};
               {| val_w := Some the_wrapper; val_ctx := Some (jsonContextArrayPtr 0);
                  val_paused := false |} ];
     arrs := [ {| arr_paused := 1; arr_nonEmpty := true |} ];
     objs := [];
     locals := [] |}.

(** Inside the callback of [Object] on a new stream writer, after
    [Item(x).Int(123)] and [Item(y)]: the item slot for y is at address 2
    and holds the builder paused. *)
Definition in_item : heap Builder :=
  {| wrapper := {| ww_w := js "{'x':123"; Err := None |};
     vals := [ {| val_w := Some the_wrapper; val_ctx := Some (jsonContextSingle 0);
                  val_paused := true |};
               {| val_w := Some the_wrapper; val_ctx := None; val_paused := false |};
               {| val_w := Some the_wrapper;
                  val_ctx := Some (jsonContextObjectItem "y" 0);
                  val_paused := false |} ];
     arrs := [];
     objs := [ {| obj_w := Some the_wrapper; obj_nonEmpty := true;
                  obj_paused := true |} ];
     locals := [] |}.

(** A new stream writer after [Marshal] of a value that cannot be
    marshaled. *)
Definition after_failed_Marshal : heap Builder :=
  {| wrapper := {| ww_w := []; Err := None |};
     vals := [ {| val_w := Some the_wrapper; val_ctx := None; val_paused := false |} ];
     arrs := []; objs := []; locals := [] |}.

(** An array callback that keeps its handle in the variable kept and
    writes 1. *)
Definition keeps_handle : V -> M (heap Builder) unit :=
  fun a => assign "kept" a ;; val_Int (J := gv_Json) a 1.

(** A new stream writer after [Array(keeps_handle)]. *)
Definition array_returned : heap Builder :=
  {| wrapper := {| ww_w := js "[1]"; Err := None |};
     vals := [ {| val_w := Some the_wrapper; val_ctx := None; val_paused := false |};
               {| val_w := None; val_ctx := Some (jsonContextArrayPtr 0);
                  val_paused := false |} ];
     arrs := [ {| arr_paused := 1; arr_nonEmpty := true |} ];
     objs := [];
     locals := [("kept"%string, Some 1%nat)] |}.

(** An object callback that keeps its builder in the variable kept and
    writes the item a with 1. *)
Definition keeps_builder : K -> M (heap Builder) unit :=
  fun o => assign "kept" o ;; item <- obj_Item o "a" ;; val_Int (J := gv_Json) item 1.

(** A new stream writer after [Object(keeps_builder)]. *)
Definition object_returned : heap Builder :=
  {| wrapper := {| ww_w := js "{'a':1}"; Err := None |};
     vals := [ {| val_w := Some the_wrapper; val_ctx := None; val_paused := false |};
               {| val_w := Some the_wrapper; val_ctx := None; val_paused := false |} ];
     arrs := [];
     objs := [ {| obj_w := None; obj_nonEmpty := true; obj_paused := false |} ];
     locals := [("kept"%string, Some 0%nat)] |}.

(** The steps of an array callback that writes 1, tries [Null()] on the
    outer slot, checks that the outer slot is not finished, and writes
    true. *)
Definition array_script : list (astep (S := Builder) (J := gv_Json)) :=
  [AElem (EScalar (SInt 1)); AOuter (OpScalar SNull); AProbe;
   AElem (EScalar (SBool true))].


(** The sink of the test file, empty, with limit [L]. *)
Definition limit_sink (L : Z) : StringBuilderWrapper := {| sbw_Builder := []; Limit := L |}.

(** * Properties *)

(** ** Stepping through memory operations *)

Section Steps.
Context {S : Type} {WS : Writer S}.
Implicit Types h : heap S.

Lemma bind_Ok {A B} (m : M (heap S) A) (k : A -> M (heap S) B) h a h' :
  m h = Ok (a, h') -> bind m k h = k a h'.
Proof. unfold bind. intros ->. reflexivity. Qed.

Lemma load_val_Ok h p x : vals h !! p = Some x -> load_val p h = Ok (x, h).
Proof. unfold load_val. intros ->. reflexivity. Qed.

Lemma load_arr_Ok h c x : arrs h !! c = Some x -> load_arr c h = Ok (x, h).
Proof. unfold load_arr. intros ->. reflexivity. Qed.

Lemma load_obj_Ok h o x : objs h !! o = Some x -> load_obj o h = Ok (x, h).
Proof. unfold load_obj. intros ->. reflexivity. Qed.

Lemma set_val_paused_Ok h p x on :
  vals h !! p = Some x ->
  set_val_paused p on h
  = Ok (tt, upd_vals (fun l => <[p := {| val_w := val_w x; val_ctx := val_ctx x;
                                          val_paused := on |}]> l) h).
Proof.
  intros Hp. unfold set_val_paused.
  rewrite (bind_Ok _ _ _ _ _ (load_val_Ok _ _ _ Hp)). reflexivity.
Qed.

Lemma set_val_ctx_Ok h p x c :
  vals h !! p = Some x ->
  set_val_ctx p c h
  = Ok (tt, upd_vals (fun l => <[p := {| val_w := val_w x; val_ctx := c;
                                          val_paused := val_paused x |}]> l) h).
Proof.
  intros Hp. unfold set_val_ctx.
  rewrite (bind_Ok _ _ _ _ _ (load_val_Ok _ _ _ Hp)). reflexivity.
Qed.

Lemma set_val_w_Ok h p x w :
  vals h !! p = Some x ->
  set_val_w p w h
  = Ok (tt, upd_vals (fun l => <[p := {| val_w := w; val_ctx := val_ctx x;
                                          val_paused := val_paused x |}]> l) h).
Proof.
  intros Hp. unfold set_val_w.
  rewrite (bind_Ok _ _ _ _ _ (load_val_Ok _ _ _ Hp)). reflexivity.
Qed.

Lemma set_arr_nonEmpty_Ok h c x b :
  arrs h !! c = Some x ->
  set_arr_nonEmpty c b h
  = Ok (tt, upd_arrs (fun l => <[c := {| arr_paused := arr_paused x;
                                          arr_nonEmpty := b |}]> l) h).
Proof.
  intros Hc. unfold set_arr_nonEmpty.
  rewrite (bind_Ok _ _ _ _ _ (load_arr_Ok _ _ _ Hc)). reflexivity.
Qed.

Lemma set_obj_paused_Ok h o x on :
  objs h !! o = Some x ->
  set_obj_paused o on h
  = Ok (tt, upd_objs (fun l => <[o := {| obj_w := obj_w x; obj_nonEmpty := obj_nonEmpty x;
                                          obj_paused := on |}]> l) h).
Proof.
  intros Ho. unfold set_obj_paused.
  rewrite (bind_Ok _ _ _ _ _ (load_obj_Ok _ _ _ Ho)). reflexivity.
Qed.

Lemma set_obj_nonEmpty_Ok h o x b :
  objs h !! o = Some x ->
  set_obj_nonEmpty o b h
  = Ok (tt, upd_objs (fun l => <[o := {| obj_w := obj_w x; obj_nonEmpty := b;
                                          obj_paused := obj_paused x |}]> l) h).
Proof.
  intros Ho. unfold set_obj_nonEmpty.
  rewrite (bind_Ok _ _ _ _ _ (load_obj_Ok _ _ _ Ho)). reflexivity.
Qed.

Lemma set_obj_w_Ok h o x w :
  objs h !! o = Some x ->
  set_obj_w o w h
  = Ok (tt, upd_objs (fun l => <[o := {| obj_w := w; obj_nonEmpty := obj_nonEmpty x;
                                          obj_paused := obj_paused x |}]> l) h).
Proof.
  intros Ho. unfold set_obj_w.
  rewrite (bind_Ok _ _ _ _ _ (load_obj_Ok _ _ _ Ho)). reflexivity.
Qed.

Lemma bind_bind {A B C} (m : M (heap S) A) (f : A -> M (heap S) B)
    (g : B -> M (heap S) C) h :
  bind (bind m f) g h = bind m (fun a => bind (f a) g) h.
Proof. unfold bind. destruct (m h) as [[a h']|]; reflexivity. Qed.

Lemma bind_ret {A B} (a : A) (k : A -> M (heap S) B) h : bind (ret a) k h = k a h.
Proof. reflexivity. Qed.

Lemma bind_ext {A B} (m : M (heap S) A) (f g : A -> M (heap S) B) h :
  (forall a h', f a h' = g a h') -> bind m f h = bind m g h.
Proof. intros E. unfold bind. destruct (m h) as [[a h']|]; [apply E|reflexivity]. Qed.

Lemma Write_Ok h p : Write (Some the_wrapper) p h = Ok (tt, emit p h).
Proof. reflexivity. Qed.

Lemma val_Write_Ok h a x p :
  vals h !! a = Some x -> val_w x = Some the_wrapper ->
  val_Write (Some a) p h = Ok (tt, emit p h).
Proof.
  intros Ha Hw. unfold val_Write.
  rewrite (bind_Ok _ _ _ _ _ (load_val_Ok _ _ _ Ha)), Hw. reflexivity.
Qed.

End Steps.

Ltac mnorm := repeat first [rewrite bind_bind | rewrite bind_ret].
Ltac mstep E := mnorm; rewrite (bind_Ok _ _ _ _ _ E); cbv beta.

Ltac mrun := mnorm; erewrite bind_Ok by reflexivity; cbv beta.

(** ** The pre-write / post-write protocol *)

Section Protocol.
Context {S : Type} {WS : Writer S} {J : Json}.
Implicit Types h : heap S.

(** Every write method is [prewrite], then its payload when allowed, then
    [postwrite]. *)
Lemma do_write_protocol (op : write_op) (v : V) h :
  do_write op v h
  = (r <- val_prewrite v ;;
     if fst r then
       e <- payload op v ;; val_postwrite v (snd r) ;; ret e
     else ret None) h.
Proof.
  destruct op as [sc|value|fn|fn]; cbn [do_write payload].
  - destruct sc as [|[|]| | | |]; cbn [write_scalar scalar_text];
      unfold val_Null, val_Bool, val_Int, val_Uint, val_Float, val_String;
      rewrite bind_bind; apply bind_ext; intros [[|] single] h';
      cbn [fst snd]; mnorm; try reflexivity;
      apply bind_ext; intros [] h2; mnorm; reflexivity.
  - unfold val_Marshal. apply bind_ext. intros [[|] single] h'; cbn [fst snd];
      [|reflexivity].
    destruct (json_Marshal value) as [bs [e|]]; cbn [fst snd is_nil]; mnorm;
      repeat (apply bind_ext; intros [] ?; mnorm); reflexivity.
  - unfold val_Array. rewrite bind_bind. apply bind_ext.
    intros [[|] single] h'; cbn [fst snd]; mnorm; [|reflexivity].
    apply bind_ext; intros [] h2. mnorm.
    apply bind_ext; intros [] h3. mnorm.
    apply bind_ext; intros [] h4. mnorm.
    apply bind_ext; intros [] h5. mnorm. reflexivity.
  - unfold val_Object. rewrite bind_bind. apply bind_ext.
    intros [[|] single] h'; cbn [fst snd]; mnorm; [|reflexivity].
    apply bind_ext; intros [] h2. mnorm.
    apply bind_ext; intros [] h3. mnorm.
    apply bind_ext; intros [] h4. mnorm.
    apply bind_ext; intros [] h5. mnorm. reflexivity.
Qed.

End Protocol.

(** ** The sink wrapper and the error it reports *)

Section Wrapper.
Context {S : Type} {WS : Writer S}.

Lemma writerWrapper_Write_sink (ww : writerWrapper S) p :
  ww_w (fst (writerWrapper_Write ww p)) = fst (io_Write (ww_w ww) p).
Proof.
  unfold writerWrapper_Write.
  destruct (io_Write (ww_w ww) p) as [w' [n [e|]]]; reflexivity.
Qed.

Lemma writerWrapper_Write_Err (ww : writerWrapper S) p :
  Err (fst (writerWrapper_Write ww p))
  = last_error (Err ww) [snd (snd (io_Write (ww_w ww) p))].
Proof.
  unfold writerWrapper_Write.
  destruct (io_Write (ww_w ww) p) as [w' [n [e|]]]; reflexivity.
Qed.

Lemma Write_all_spec ps : forall h : heap S,
  exists h', Write_all (Some the_wrapper) ps h = Ok (tt, h')
    /\ vals h' = vals h
    /\ ww_w (wrapper h') = sink_after (ww_w (wrapper h)) ps
    /\ Err (wrapper h')
       = last_error (Err (wrapper h)) (sink_errors (ww_w (wrapper h)) ps).
Proof.
  induction ps as [|p ps IH]; intros h.
  - exists h. repeat split.
  - destruct (IH (upd_wrapper (fun ww => fst (writerWrapper_Write ww p)) h))
      as (h' & Hrun & Hv & Hw & He).
    exists h'. split; [exact Hrun|]. split; [exact Hv|].
    cbn [upd_wrapper wrapper] in Hw, He.
    rewrite writerWrapper_Write_sink in Hw, He.
    rewrite writerWrapper_Write_Err in He.
    split; [exact Hw|]. rewrite He. cbn [sink_errors last_error].
    destruct (snd (snd (io_Write (ww_w (wrapper h)) p))); reflexivity.
Qed.

End Wrapper.

(** C1, corrected to what the code does: every write through the wrapper
    is forwarded to the sink, and after any sequence of writes the
    [Error()] query of a slot holding the wrapper reports the error of the
    most recent failing write (the error recorded before them when none
    failed): a later error replaces an earlier one. *)
Theorem C1_Error_reports_last_error
    {S : Type} {WS : Writer S}
    (h : heap S) (p : nat) (x : val) (ps : list bytes) :
  vals h !! p = Some x ->
  val_w x = Some the_wrapper ->
  exists h',
    Write_all (Some the_wrapper) ps h = Ok (tt, h')
    /\ ww_w (wrapper h') = sink_after (ww_w (wrapper h)) ps
    /\ val_Error (Some p) h'
       = Ok (last_error (Err (wrapper h)) (sink_errors (ww_w (wrapper h)) ps), h').
Proof.
  intros Hp Hw.
  destruct (Write_all_spec ps h) as (h' & Hrun & Hv & Hs & He).
  exists h'. split; [exact Hrun|]. split; [exact Hs|].
  unfold val_Error, bind, load_val. rewrite Hv, Hp, Hw.
  unfold get, ret. rewrite He. reflexivity.
Qed.

Lemma C1_Error_reports_last_error_witness :
  exists h',
    Write_all (Some the_wrapper) two_failing_writes
      (fst (NewStreamWriter small_sink)) = Ok (tt, h')
    /\ ww_w (wrapper h') = sink_after small_sink two_failing_writes
    /\ val_Error (Some 0%nat) h'
       = Ok (last_error None (sink_errors small_sink two_failing_writes), h').
Proof.
  apply (C1_Error_reports_last_error
           (fst (NewStreamWriter small_sink)) 0 _ two_failing_writes
           eq_refl eq_refl).
Defined.

(** C1 as the specification states it fails: both writes reach the sink
    and both return an error, the two errors differ, and [Error()] then
    reports the second one, not the first. *)
Lemma C1_first_error_is_overwritten :
  let h0 := fst (NewStreamWriter small_sink) in
  let rs := sink_errors small_sink two_failing_writes in
  rs = [Some "Buffer length 5 exceeds limit 3."%string;
        Some "Buffer length 10 exceeds limit 3."%string]
  /\ sbw_Builder (sink_after small_sink two_failing_writes) = bytes_of "1234567890"
  /\ exists h e,
       Write_all (Some the_wrapper) two_failing_writes h0 = Ok (tt, h)
       /\ val_Error (Some 0%nat) h = Ok (Some e, h)
       /\ Some e <> first_error rs
       /\ e = "Buffer length 10 exceeds limit 3."%string.
Proof.
  cbv zeta. split; [reflexivity|]. split; [reflexivity|].
  eexists. eexists. split; [reflexivity|]. split; [reflexivity|].
  split; [|reflexivity]. vm_compute. congruence.
Qed.

(** ** Scalars on the root slot *)

(** C5: on the root slot of a new stream writer, each scalar method writes
    exactly the JSON text of its argument to the sink, and [Finished()] is
    true afterwards. *)
Theorem C5_scalar_on_fresh_root {J : Json} (b : Builder) (sc : scalar) :
  exists h,
    write_scalar (snd (NewStreamWriter b)) sc (fst (NewStreamWriter b)) = Ok (tt, h)
    /\ ww_w (wrapper h) = b ++ scalar_text sc
    /\ val_Finished (snd (NewStreamWriter b)) h = Ok (true, h)
    /\ val_Finished (snd (NewStreamWriter b)) (fst (NewStreamWriter b))
       = Ok (false, fst (NewStreamWriter b)).
Proof.
  destruct sc as [|[|]| | | |]; eexists; (split; [reflexivity|]);
    repeat split.
Qed.

(** ** The nil handle *)

Section NilHandle.
Context {S : Type} {WS : Writer S} {J : Json}.
Implicit Types h : heap S.

(** A builder with an unresolved item hands out the nil handle. *)
Lemma obj_Item_paused (h : heap S) (q : nat) (x : obj) (key : string) :
  objs h !! q = Some x -> obj_paused x = true ->
  obj_Item (Some q) key h = Ok (None, h).
Proof.
  intros Hq Hp. unfold obj_Item, bind, load_obj. rewrite Hq, Hp. reflexivity.
Qed.

(** Every write method returns at once on the nil handle. *)
Lemma nil_slot_ignores (op : write_op) h : do_write op None h = Ok (None, h).
Proof. destruct op as [[| | | | |]| | |]; reflexivity. Qed.

(** While a builder is paused, requesting items and writing to the handles
    obtained changes nothing. *)
Lemma items_paused (l : list (string * write_op)) h q x :
  objs h !! q = Some x -> obj_paused x = true ->
  items (Some q) l h = Ok (tt, h).
Proof.
  intros Hq Hp. induction l as [|[k op] l IH]; [reflexivity|].
  cbn [items]. mstep (obj_Item_paused _ _ _ k Hq Hp).
  mstep (nil_slot_ignores op h). exact IH.
Qed.

End NilHandle.

(** C10: every value-writing method called on the nil slot handle returns
    without panicking and leaves the whole memory, the sink included, as it
    was; [Marshal] returns the nil error.  ([obj_Item_paused]: nil is the
    handle [Item] returns while the builder has an unresolved item.) *)
Theorem C10_nil_slot_is_noop {S : Type} {WS : Writer S} {J : Json}
    (op : write_op) (h : heap S) :
  do_write op None h = Ok (None, h).
Proof.
  destruct op as [sc|value|fn|fn]; [destruct sc| | |]; reflexivity.
Qed.

(** ** Slots that are open, and slots that are finished *)

Section Slots.
Context {S : Type} {WS : Writer S} {J : Json}.
Implicit Types h : heap S.

Lemma val_prewrite_refused (v : V) h s h' :
  val_prewrite v h = Ok ((false, s), h') -> h' = h /\ s = false.
Proof.
  unfold val_prewrite. destruct v as [p|]; [|intros [= <- <-]; auto].
  unfold bind, load_val. destruct (vals h !! p) as [x|]; [|discriminate].
  destruct (val_w x), (val_ctx x) as [ctx|]; try (intros [= <- <-]; auto).
  destruct (val_paused x); [intros [= <- <-]; auto|].
  destruct (ctx_prewrite ctx _ h) as [[b h1]|]; discriminate.
Qed.

Lemma ctx_prewrite_single ctx w h b h' :
  single_valued ctx = true -> ctx_prewrite ctx w h = Ok (b, h') -> b = true.
Proof.
  destruct ctx as [pp|c|key o]; cbn; [|discriminate|]; intros _.
  - intros [= <- _]. reflexivity.
  - unfold jsonContextObjectItem_prewrite, bind.
    destruct (obj_prewrite o h) as [[allowed h1]|]; [|discriminate].
    destruct allowed.
    + destruct (Write w _ h1) as [[[] h2]|]; [|discriminate].
      destruct (Write w _ h2) as [[[] h3]|]; [|discriminate].
      intros [= <- _]. reflexivity.
    + intros [= <- _]. reflexivity.
Qed.

Lemma val_prewrite_single p h ok s h' :
  single_slot h p = true ->
  val_prewrite (Some p) h = Ok ((ok, s), h') -> ok = true -> s = true.
Proof.
  unfold single_slot, ctx_of, val_prewrite, bind, load_val.
  destruct (vals h !! p) as [x|]; [|discriminate].
  destruct (val_ctx x) as [ctx|]; [|discriminate]. intros Hs.
  destruct (val_w x); [|intros [= <- <-]; discriminate].
  destruct (val_paused x); [intros [= <- <-]; discriminate|].
  destruct (ctx_prewrite ctx _ h) as [[b h1]|] eqn:E; [|discriminate].
  intros [= _ <- _] _. eapply ctx_prewrite_single; eauto.
Qed.

(** Every write on a finished slot is refused and changes nothing. *)
Lemma finished_slot_ignores (op : write_op) p x h :
  vals h !! p = Some x -> val_ctx x = None ->
  do_write op (Some p) h = Ok (None, h).
Proof.
  intros Hp Hc. rewrite do_write_protocol. unfold val_prewrite.
  mstep (load_val_Ok _ _ _ Hp). rewrite Hc.
  destruct (val_w x); reflexivity.
Qed.

(** [postwrite] with [single] set leaves the slot finished. *)
Lemma val_postwrite_retires p h h' :
  val_postwrite (Some p) true h = Ok (tt, h') ->
  exists x, vals h' !! p = Some x /\ val_ctx x = None.
Proof.
  unfold val_postwrite, bind, load_val.
  destruct (vals h !! p) as [x|] eqn:Hp; [|discriminate].
  destruct (val_ctx x) as [ctx|] eqn:Hc.
  - destruct (ctx_pause ctx false h) as [[[] h1]|]; [|discriminate].
    unfold set_val_ctx, bind, load_val.
    destruct (vals h1 !! p) as [y|] eqn:Hy; [|discriminate].
    unfold store_val. intros [= <-]. cbn [vals upd_vals].
    eexists. split; [apply list_lookup_insert_eq; eapply lookup_lt_Some; eauto|].
    reflexivity.
  - intros [= <-]. eauto.
Qed.

Lemma bind_inv {A B} (m : M (heap S) A) (k : A -> M (heap S) B) h b h' :
  bind m k h = Ok (b, h') -> exists a h1, m h = Ok (a, h1) /\ k a h1 = Ok (b, h').
Proof. unfold bind. destruct (m h) as [[a h1]|]; [eauto|discriminate]. Qed.

(** After a write of any kind on a single-value slot has returned, every
    further write on the slot is refused. *)
Lemma single_slot_used_once (op1 op2 : write_op) p h r h1 :
  single_slot h p = true ->
  do_write op1 (Some p) h = Ok (r, h1) ->
  do_write op2 (Some p) h1 = Ok (None, h1).
Proof.
  intros Hs. rewrite do_write_protocol. intros H.
  apply bind_inv in H as ([ok s] & h2 & Hpre & H). destruct ok; cbn [fst snd] in H.
  - rewrite (val_prewrite_single _ _ _ _ _ Hs Hpre eq_refl) in H.
    apply bind_inv in H as (e & h3 & _ & H).
    apply bind_inv in H as ([] & h4 & Hpost & H).
    injection H as <- <-.
    destruct (val_postwrite_retires _ _ _ Hpost) as (x & Hx & Hc).
    apply (finished_slot_ignores op2 _ _ _ Hx Hc).
  - destruct (val_prewrite_refused _ _ _ _ Hpre) as [-> ->].
    injection H as <- <-.
    rewrite do_write_protocol. unfold bind. rewrite Hpre. reflexivity.
Qed.

End Slots.

(** C9: on a slot backed by a single-value context, a first write of any
    kind followed by a second attempt of any kind leaves exactly the memory,
    and so exactly the sink contents, that the first write alone leaves; the
    second attempt returns nil.  (When the first write panics, so does the
    pair.) *)
Theorem C9_second_write_is_ignored {S : Type} {WS : Writer S} {J : Json}
    (h : heap S) (p : nat) (op1 op2 : write_op) :
  single_slot h p = true ->
  (_ <- do_write op1 (Some p) ;; do_write op2 (Some p)) h
  = (_ <- do_write op1 (Some p) ;; ret None) h.
Proof.
  intros Hs. unfold bind.
  destruct (do_write op1 (Some p) h) as [[r h1]|] eqn:E; [|reflexivity].
  apply (single_slot_used_once op1 op2 _ _ _ _ Hs E).
Qed.

(** The root of a new stream writer: [Int(123)] and then [String]. *)
Lemma C9_second_write_is_ignored_witness :
  (_ <- do_write (J := gv_Json) (OpScalar (SInt 123)) (Some 0%nat) ;;
   do_write (OpScalar (SString "Ignored")) (Some 0%nat))
    (fst (NewStreamWriter ([] : Builder)))
  = (_ <- do_write (OpScalar (SInt 123)) (Some 0%nat) ;; ret None)
      (fst (NewStreamWriter ([] : Builder))).
Proof.
  apply (C9_second_write_is_ignored (J := gv_Json)
           (fst (NewStreamWriter ([] : Builder))) 0
           (OpScalar (SInt 123)) (OpScalar (SString "Ignored")) eq_refl).
Defined.

(** ** Marshal on a slot when marshaling fails *)

Section FailedMarshal.
Context {S : Type} {WS : Writer S} {J : Json}.
Implicit Types h : heap S.

Lemma lookup_insert_live {A} (l : list A) i j x y :
  l !! j = Some y -> <[i := x]> l !! j = Some (if decide (i = j) then x else y).
Proof.
  intros E. destruct (decide (i = j)) as [->|Hne].
  - apply list_lookup_insert_eq. eapply lookup_lt_Some; eauto.
  - rewrite list_lookup_insert_ne; auto.
Qed.

(** On a writable slot [prewrite] allows the write and reports whether the
    context is single-valued; a plain single-value context writes nothing. *)
Lemma val_prewrite_writable h p ctx :
  writable h p = true -> ctx_of h p = Some ctx ->
  exists h1,
    val_prewrite (Some p) h = Ok ((true, single_valued ctx), h1)
    /\ vals h1 = vals h
    /\ ctx_live h1 ctx = true
    /\ (forall paused, ctx = jsonContextSingle paused -> h1 = h).
Proof.
  unfold writable, ctx_of. intros Hw Hc.
  destruct (vals h !! p) as [[w c pa]|] eqn:Hp; [|discriminate].
  cbn in Hw, Hc. subst c.
  destruct w as [[]|]; [|discriminate].
  destruct pa; [discriminate|]. cbn in Hw.
  unfold val_prewrite. mstep (load_val_Ok _ _ _ Hp).
  cbn [val_w val_ctx val_paused].
  destruct ctx as [pp|c|key o]; cbn [ctx_prewrite ctx_ok ctx_live single_valued] in *.
  - exists h. repeat split; auto.
  - destruct (arrs h !! c) as [a|] eqn:Ha; [|discriminate].
    unfold jsonContextArray_prewrite. mstep (load_arr_Ok _ _ _ Ha).
    destruct (arr_nonEmpty a).
    + mstep (Write_Ok h (bytes_of ",")).
      assert (Ha' : arrs (emit (bytes_of ",") h) !! c = Some a) by exact Ha.
      mstep (set_arr_nonEmpty_Ok _ _ _ true Ha'). mnorm.
      eexists. split; [reflexivity|]. cbn [vals arrs upd_arrs emit upd_wrapper].
      split; [reflexivity|]. split; [|discriminate].
      rewrite list_lookup_insert_eq by (eapply lookup_lt_Some; eauto). exact Hw.
    + mnorm. mstep (set_arr_nonEmpty_Ok _ _ _ true Ha). mnorm.
      eexists. split; [reflexivity|]. cbn [vals arrs upd_arrs].
      split; [reflexivity|]. split; [|discriminate].
      rewrite list_lookup_insert_eq by (eapply lookup_lt_Some; eauto). exact Hw.
  - destruct (objs h !! o) as [x|] eqn:Ho; [|discriminate].
    unfold jsonContextObjectItem_prewrite, obj_prewrite.
    mstep (load_obj_Ok _ _ _ Ho).
    destruct (obj_w x) as [[]|] eqn:Hxw; cbn [is_nil negb andb orb] in *.
    + destruct (obj_nonEmpty x).
      * mstep (Write_Ok h (bytes_of ",")).
        assert (Ho' : objs (emit (bytes_of ",") h) !! o = Some x) by exact Ho.
        mstep (set_obj_nonEmpty_Ok _ _ _ true Ho'). mnorm.
        rewrite (bind_Ok _ _ _ _ _ (Write_Ok _ _)), (bind_Ok _ _ _ _ _ (Write_Ok _ _)). mnorm.
        eexists. split; [reflexivity|]. cbn [vals objs upd_objs emit upd_wrapper].
        split; [reflexivity|]. split; [|discriminate].
        rewrite list_lookup_insert_eq by (eapply lookup_lt_Some; eauto). reflexivity.
      * mnorm. mstep (set_obj_nonEmpty_Ok _ _ _ true Ho). mnorm.
        rewrite (bind_Ok _ _ _ _ _ (Write_Ok _ _)), (bind_Ok _ _ _ _ _ (Write_Ok _ _)). mnorm.
        eexists. split; [reflexivity|]. cbn [vals objs upd_objs emit upd_wrapper].
        split; [reflexivity|]. split; [|discriminate].
        rewrite list_lookup_insert_eq by (eapply lookup_lt_Some; eauto). reflexivity.
    + rewrite Hw. mnorm. exists h. split; [reflexivity|].
      split; [reflexivity|]. split; [|discriminate]. rewrite Ho. reflexivity.
Qed.

(** [postwrite] on a slot whose context is live: it writes nothing, and
    the slot is finished afterwards exactly when [single] is set. *)
Lemma val_postwrite_live h p x ctx single :
  vals h !! p = Some x -> val_ctx x = Some ctx -> ctx_live h ctx = true ->
  exists h',
    val_postwrite (Some p) single h = Ok (tt, h')
    /\ wrapper h' = wrapper h
    /\ val_Finished (Some p) h' = Ok (single, h').
Proof.
  intros Hp Hc Hl. unfold val_postwrite. mstep (load_val_Ok _ _ _ Hp). rewrite Hc.
  assert (exists h1 y, ctx_pause ctx false h = Ok (tt, h1) /\ wrapper h1 = wrapper h
            /\ vals h1 !! p = Some y /\ val_ctx y = Some ctx) as (h1 & y & Hpause & Hw1 & Hy & Hyc).
  { destruct ctx as [pp|c|key o]; cbn [ctx_pause ctx_live] in *.
    - destruct (vals h !! pp) as [z|] eqn:Hz; [|discriminate].
      unfold jsonContextSingle_pause. rewrite (set_val_paused_Ok _ _ _ false Hz).
      eexists. eexists. split; [reflexivity|]. split; [reflexivity|].
      cbn [vals upd_vals]. split; [apply (lookup_insert_live _ _ _ _ _ Hp)|].
      destruct (decide (pp = p)) as [->|]; [|exact Hc].
      rewrite Hp in Hz. injection Hz as <-. exact Hc.
    - destruct (arrs h !! c) as [a|] eqn:Ha; [|discriminate].
      destruct (vals h !! arr_paused a) as [z|] eqn:Hz; [|discriminate].
      unfold jsonContextArray_pause. mstep (load_arr_Ok _ _ _ Ha).
      rewrite (set_val_paused_Ok _ _ _ false Hz).
      eexists. eexists. split; [reflexivity|]. split; [reflexivity|].
      cbn [vals upd_vals]. split; [apply (lookup_insert_live _ _ _ _ _ Hp)|].
      destruct (decide (arr_paused a = p)) as [E|]; [|exact Hc].
      rewrite E, Hp in Hz. injection Hz as <-. exact Hc.
    - destruct (objs h !! o) as [z|] eqn:Hz; [|discriminate].
      unfold jsonContextObjectItem_pause. rewrite (set_obj_paused_Ok _ _ _ false Hz).
      eexists. exists x. repeat split; auto. }
  mstep Hpause. destruct single.
  - rewrite (set_val_ctx_Ok _ _ _ None Hy).
    eexists. split; [reflexivity|]. split; [exact Hw1|].
    unfold val_Finished, bind, load_val. cbn [vals upd_vals].
    rewrite list_lookup_insert_eq by (eapply lookup_lt_Some; eauto). reflexivity.
  - exists h1. split; [reflexivity|]. split; [exact Hw1|].
    unfold val_Finished, bind, load_val. rewrite Hy, Hyc. reflexivity.
Qed.

End FailedMarshal.

(** C2, corrected to what the code does: on a writable slot, [Marshal] of
    a value whose marshaling fails returns the marshaling error, and the
    slot then takes the usual post-write step: a slot with a single-value
    context is retired ([Finished()] is true) as after a successful write,
    a slot of an array stays open.  On a slot with the plain single-value
    context, the root slot, nothing is written to the sink. *)
Theorem C2_failed_Marshal_retires_single_slot
    {S : Type} {WS : Writer S} {J : Json}
    (h : heap S) (p : nat) (ctx : jsonContext) (value : any) (e : error) :
  writable h p = true ->
  ctx_of h p = Some ctx ->
  snd (json_Marshal value) = Some e ->
  exists h',
    val_Marshal (Some p) value h = Ok (Some e, h')
    /\ val_Finished (Some p) h' = Ok (single_valued ctx, h')
    /\ (forall paused, ctx = jsonContextSingle paused -> wrapper h' = wrapper h).
Proof.
  intros Hw Hc He.
  destruct (val_prewrite_writable _ _ _ Hw Hc) as (h1 & Hpre & Hv & Hl & Hsame).
  change (val_Marshal (Some p) value) with (do_write (S := S) (OpMarshal value) (Some p)).
  assert (exists x, vals h1 !! p = Some x /\ val_ctx x = Some ctx) as (x & Hx & Hxc).
  { rewrite Hv. unfold ctx_of in Hc. destruct (vals h !! p) as [x|]; [eauto|discriminate]. }
  destruct (val_postwrite_live _ _ _ _ (single_valued ctx) Hx Hxc Hl)
    as (h' & Hpost & Hw' & Hfin).
  exists h'. split.
  - rewrite do_write_protocol. mstep Hpre. cbn [fst snd payload].
    rewrite He. cbn [is_nil]. mnorm. mstep Hpost. reflexivity.
  - split; [exact Hfin|]. intros pp Hpp. rewrite Hw'.
    rewrite (Hsame pp Hpp). reflexivity.
Qed.

Lemma C2_failed_Marshal_retires_single_slot_witness :
  exists h',
    val_Marshal (J := gv_Json) (Some 0%nat) GFunc (fst (NewStreamWriter ([] : Builder)))
    = Ok (Some "json: unsupported type"%string, h')
    /\ val_Finished (Some 0%nat) h' = Ok (true, h')
    /\ (forall paused, jsonContextSingle 0 = jsonContextSingle paused ->
        wrapper h' = wrapper (fst (NewStreamWriter ([] : Builder)))).
Proof.
  apply (C2_failed_Marshal_retires_single_slot (J := gv_Json)
           (fst (NewStreamWriter ([] : Builder))) 0 (jsonContextSingle 0) GFunc
           "json: unsupported type"%string eq_refl eq_refl eq_refl).
Defined.

(** C2 as the specification states it fails: [Marshal] of a function
    value on the root slot of a new stream writer returns the error, and
    the slot, open before the call, is finished after it. *)
Lemma C2_failed_Marshal_closes_root :
  let h0 := fst (NewStreamWriter ([] : Builder)) in
  val_Finished (Some 0%nat) h0 = Ok (false, h0)
  /\ exists e h',
       val_Marshal (J := gv_Json) (Some 0%nat) GFunc h0 = Ok (Some e, h')
       /\ val_Finished (Some 0%nat) h' = Ok (true, h')
       /\ vals h' <> vals h0.
Proof.
  cbv zeta. split; [reflexivity|].
  eexists. eexists. split; [reflexivity|]. split; [reflexivity|].
  vm_compute. discriminate.
Qed.

(** A failed [Marshal] inside an array or on an item slot: the separator
    or the key has been sent by [prewrite] before marshaling is tried. *)
Example failed_Marshal_after_separator :
  output (J := gv_Json) (fun v => val_Array v (Some (fun a =>
            val_Int a 1 ;; _ <- val_Marshal a GFunc ;; val_Int a 2)))
  = Ok (js "[1,,2]")
  /\ output (J := gv_Json) (fun v => val_Object v (Some (fun o =>
            item <- obj_Item o "k" ;; _ <- val_Marshal item GFunc ;; ret tt)))
     = Ok (js "{'k':}").
Proof. split; reflexivity. Qed.

(** ** Items of an object *)

(** C3, corrected to what the code does: in an object-opening callback,
    an item whose handle never received a value is omitted, and so is every
    item requested after it through the same builder, whatever is written
    to the handles obtained: the callback that calls [Item(x)] without
    writing a value and then requests and writes further items produces
    exactly the empty object. *)
Theorem C3_items_after_unwritten_item_are_dropped {J : Json}
    (x : string) (later : list (string * write_op)) :
  output (fun v => val_Object v (Some (fun o =>
            _ <- obj_Item o x ;; items o later)))
  = Ok (bytes_of "{}").
Proof.
  unfold output, NewStreamWriter, val_Object.
  mrun. cbn [fst snd]. do 5 mrun.
  erewrite (bind_Ok (items _ _)); [|eapply items_paused; reflexivity].
  reflexivity.
Qed.

(** C3 as the specification states it fails: [Item] with key x left
    without a value, then [Item] with key y given [Int(2)], produces the
    empty object and not an object with the item y. *)
Lemma C3_later_item_is_not_emitted :
  output (J := gv_Json) (fun v => val_Object v (Some (fun o =>
            _ <- obj_Item o "x" ;;
            y <- obj_Item o "y" ;;
            val_Int y 2)))
  = Ok (js "{}")
  /\ js "{}" <> js "{'y':2}".
Proof. split; [reflexivity|discriminate]. Qed.

(** ** Handles kept after the callback has returned *)

(** C4 fails on the code: an item slot that was given no value inside the
    object callback and is kept after [Object] has returned still writes
    its value to the sink, after the closing brace. *)
Lemma C4_escaped_item_slot_writes {J : Json} :
  output (fun v =>
            val_Object v (Some (fun o =>
              item <- obj_Item o "x" ;; assign "item" item)) ;;
            item <- read "item" ;;
            val_Int item 5)
  = Ok (bytes_of "{}5").
Proof. reflexivity. Qed.

(** A builder kept after [Object] has returned, with no unresolved item:
    its [Marshal] of a non-empty map calls [Write] on the cleared sink
    reference and panics. *)
Lemma escaped_builder_Marshal_panics :
  output (J := gv_Json) (fun v =>
            val_Object v (Some (fun o => assign "o" o)) ;;
            o <- read "o" ;;
            _ <- obj_Marshal o [("a"%string, GInt 1)] ;;
            ret tt)
  = Panic.
Proof. reflexivity. Qed.

(** The inner slot of an array is inert once [Array] has returned. *)
Lemma escaped_array_slot_is_inert {J : Json} (op : write_op) :
  output (fun v =>
            val_Array v (Some (fun a => assign "a" a)) ;;
            a <- read "a" ;;
            _ <- do_write op a ;;
            ret tt)
  = Ok (bytes_of "[]").
Proof.
  unfold output, NewStreamWriter.
  do 2 mrun.
  erewrite bind_Ok; [|rewrite do_write_protocol; reflexivity].
  reflexivity.
Qed.

(** ** Writes on a slot while its callback runs *)

Section Shadowed.
Context {S : Type} {WS : Writer S} {J : Json}.
Implicit Types h : heap S.

(** Every write on a paused slot is refused and changes nothing.  The root
    slot and the slot of an array are paused while the callback of a
    composite opened from them runs ([pause_slot]). *)
Lemma paused_slot_ignores (op : write_op) p x h :
  vals h !! p = Some x -> val_paused x = true ->
  do_write op (Some p) h = Ok (None, h).
Proof.
  intros Hp Hpa. rewrite do_write_protocol. unfold val_prewrite.
  mstep (load_val_Ok _ _ _ Hp). rewrite Hpa.
  destruct (val_w x), (val_ctx x); reflexivity.
Qed.

End Shadowed.

(** Writes of any kind on the root slot from inside its own array callback
    leave no trace in the document. *)
Example root_writes_inside_callback_dropped {J : Json} (op1 op2 : write_op) :
  output (fun v => val_Array v (Some (fun a =>
            _ <- do_write op1 v ;; val_Int a 456 ;; _ <- do_write op2 v ;; ret tt)))
  = Ok (bytes_of "[456]").
Proof.
  unfold output, NewStreamWriter, val_Array.
  mrun. cbn [fst snd]. do 6 mrun. mnorm.
  erewrite bind_Ok; [|eapply paused_slot_ignores; reflexivity].
  mrun. mnorm.
  erewrite bind_Ok; [|eapply paused_slot_ignores; reflexivity].
  reflexivity.
Qed.

(** C8 fails on the code: a write on an item slot made inside the callback
    of the array opened from that same slot is not dropped; it emits a
    comma, the key again and the value inside the array. *)
Lemma C8_item_slot_not_shadowed :
  output (J := gv_Json) (fun v =>
            val_Object v (Some (fun o =>
              item <- obj_Item o "a" ;;
              val_Array item (Some (fun _ => val_Int item 5)))))
  = Ok (js "{'a':[,'a':5]}").
Proof. reflexivity. Qed.

(** ** Marshal on a builder *)

Section BuilderMarshal.
Context {J : Json}.
Implicit Types h : heap Builder.

Lemma emit_Builder (p : bytes) h :
  emit p h = upd_wrapper (fun ww => {| ww_w := ww_w ww ++ p; Err := Err ww |}) h.
Proof. reflexivity. Qed.

Lemma slice_braces (inner : bytes) :
  let bs := bytes_of "{" ++ inner ++ bytes_of "}" in
  slice bs 1 (length bs - 1) = inner.
Proof.
  cbv zeta. unfold slice.
  change (bytes_of "{" ++ inner ++ bytes_of "}") with (Byte.x7b :: inner ++ [Byte.x7d]).
  cbn [drop length]. rewrite length_app. cbn [length].
  replace (Datatypes.S (length inner + 1) - 1 - 1)%nat with (length inner) by lia.
  rewrite drop_0.
  rewrite take_app_length. reflexivity.
Qed.

End BuilderMarshal.

(** C7: [Marshal] on a builder that still has its sink.  When marshaling
    the map fails, the error is returned and nothing changes.  When the map
    encodes to the empty object, nil is returned and nothing changes, the
    flag included.  When it encodes to braces around a non-empty [inner],
    the sink receives a comma exactly when an item had been emitted before,
    then [inner] verbatim, the has-emitted flag is set, and nil is
    returned. *)
Theorem C7_builder_Marshal {J : Json}
    (h : heap Builder) (q : nat) (x : obj) (m : anyMap) :
  objs h !! q = Some x ->
  obj_w x = Some the_wrapper ->
  (forall bs e, json_Marshal (box_map m) = (bs, Some e) ->
     obj_Marshal (Some q) m h = Ok (Some e, h))
  /\ (json_Marshal (box_map m) = (bytes_of "{}", None) ->
      obj_Marshal (Some q) m h = Ok (None, h))
  /\ (forall inner, inner <> [] ->
      json_Marshal (box_map m) = (bytes_of "{" ++ inner ++ bytes_of "}", None) ->
      obj_Marshal (Some q) m h = Ok (None, spliced q x inner h)).
Proof.
  intros Hq Hw. split; [|split].
  - intros bs e E. unfold obj_Marshal. rewrite E. reflexivity.
  - intros E. unfold obj_Marshal. rewrite E. reflexivity.
  - intros inner Hne E. unfold obj_Marshal. rewrite E.
    assert (Hlen : (2 <? length (bytes_of "{" ++ inner ++ bytes_of "}"))%nat = true).
    { apply Nat.ltb_lt. cbn. rewrite length_app. cbn.
      destruct inner; [congruence|cbn; lia]. }
    rewrite Hlen. unfold obj_prewrite.
    mstep (load_obj_Ok _ _ _ Hq). rewrite Hw. cbn [is_nil andb].
    rewrite slice_braces. unfold spliced.
    destruct (obj_nonEmpty x).
    + mstep (Write_Ok h (bytes_of ",")).
      assert (Hq' : objs (emit (bytes_of ",") h) !! q = Some x) by exact Hq.
      mstep (set_obj_nonEmpty_Ok _ _ _ true Hq'). mnorm.
      erewrite bind_Ok.
      2:{ apply load_obj_Ok. cbn [objs upd_objs].
          apply list_lookup_insert_eq. eapply lookup_lt_Some; eauto. }
      cbn [obj_w]. rewrite Hw. rewrite (bind_Ok _ _ _ _ _ (Write_Ok (S := Builder) _ inner)). mnorm.
      unfold ret. f_equal. f_equal.
      rewrite !emit_Builder. unfold upd_objs, upd_wrapper. cbn.
      rewrite <- !app_assoc. reflexivity.
    + mnorm. mstep (set_obj_nonEmpty_Ok _ _ _ true Hq). mnorm.
      erewrite bind_Ok.
      2:{ apply load_obj_Ok. cbn [objs upd_objs].
          apply list_lookup_insert_eq. eapply lookup_lt_Some; eauto. }
      cbn [obj_w]. rewrite Hw. rewrite (bind_Ok _ _ _ _ _ (Write_Ok (S := Builder) _ inner)). mnorm.
      reflexivity.
Qed.

Lemma C7_builder_Marshal_witness :
  obj_Marshal (J := gv_Json) (Some 0%nat) [("mA"%string, GInt 1)] one_item_written
  = Ok (None,
        spliced 0 {| obj_w := Some the_wrapper; obj_nonEmpty := true;
                     obj_paused := false |} (js "'mA':1") one_item_written)
  /\ ww_w (wrapper (spliced 0 {| obj_w := Some the_wrapper; obj_nonEmpty := true;
                                 obj_paused := false |} (js "'mA':1") one_item_written))
     = js "{'x':123,'mA':1".
Proof.
  split; [|reflexivity].
  refine (proj2 (proj2 (C7_builder_Marshal (J := gv_Json) one_item_written 0 _
                          [("mA"%string, GInt 1)] eq_refl eq_refl)) (js "'mA':1") _ eq_refl).
  discriminate.
Defined.

Example one_item_written_reached :
  (let (h, v) := NewStreamWriter ([] : Builder) in
   match val_prewrite (J := gv_Json) v h with
   | Ok (_, h1) =>
       (val_ctx_pause v true ;; val_Write v (bytes_of "{") ;;
        x <- load_val 0 ;;
        jso <- new_obj {| obj_w := val_w x; obj_nonEmpty := false; obj_paused := false |} ;;
        item <- obj_Item (Some jso) "x" ;;
        val_Int item 123) h1
   | Panic => Panic
   end) = Ok (tt, one_item_written).
Proof. reflexivity. Qed.

(** ** Frames *)

Section Frames.
Context {S : Type} {WS : Writer S}.
Implicit Types h : heap S.

Lemma frame_refl ev ea eo h : frame ev ea eo h h.
Proof. repeat split; auto. Qed.

Lemma frame_step ev ea eo ev' ea' eo' h h1 h2 :
  frame ev ea eo h h1 -> frame ev' ea' eo' h1 h2 ->
  covered ev' ev (vals h) -> covered ea' ea (arrs h) -> covered eo' eo (objs h) ->
  frame ev ea eo h h2.
Proof.
  intros (Fv & Fa & Fo) (Gv & Ga & Go) Cv Ca Co. repeat split; intros i x Hne Hi.
  - apply Gv; [|apply Fv; auto]. intros ->. destruct Cv; congruence.
  - apply Ga; [|apply Fa; auto]. intros ->. destruct Ca; congruence.
  - apply Go; [|apply Fo; auto]. intros ->. destruct Co; congruence.
Qed.

Lemma covered_same {A} e (l : list A) : covered e e l.
Proof. destruct e; cbn; auto. Qed.

Lemma covered_fresh {A} e (l : list A) : covered (Some (length l)) e l.
Proof. right. apply lookup_ge_None. lia. Qed.

Lemma frame_trans ev ea eo h h1 h2 :
  frame ev ea eo h h1 -> frame ev ea eo h1 h2 -> frame ev ea eo h h2.
Proof. intros F G. eapply frame_step; eauto using covered_same. Qed.

Lemma frame_emit ev ea eo p h : frame ev ea eo h (emit p h).
Proof. repeat split; auto. Qed.

Lemma frame_set_val ea eo p x h :
  frame (Some p) ea eo h (upd_vals (fun l => <[p := x]> l) h).
Proof.
  repeat split; auto. intros i y Hne Hi. cbn.
  rewrite list_lookup_insert_ne; [exact Hi|congruence].
Qed.

Lemma frame_set_arr ev eo c x h :
  frame ev (Some c) eo h (upd_arrs (fun l => <[c := x]> l) h).
Proof.
  repeat split; auto. intros i y Hne Hi. cbn.
  rewrite list_lookup_insert_ne; [exact Hi|congruence].
Qed.

Lemma frame_set_obj ev ea o x h :
  frame ev ea (Some o) h (upd_objs (fun l => <[o := x]> l) h).
Proof.
  repeat split; auto. intros i y Hne Hi. cbn.
  rewrite list_lookup_insert_ne; [exact Hi|congruence].
Qed.

Lemma frame_new_val ev ea eo x h :
  frame ev ea eo h (upd_vals (fun l => l ++ [x]) h).
Proof.
  repeat split; auto. intros i y _ Hi. cbn. apply lookup_app_l_Some, Hi.
Qed.

Lemma frame_new_arr ev ea eo x h :
  frame ev ea eo h (upd_arrs (fun l => l ++ [x]) h).
Proof.
  repeat split; auto. intros i y _ Hi. cbn. apply lookup_app_l_Some, Hi.
Qed.

Lemma frame_new_obj ev ea eo x h :
  frame ev ea eo h (upd_objs (fun l => l ++ [x]) h).
Proof.
  repeat split; auto. intros i y _ Hi. cbn. apply lookup_app_l_Some, Hi.
Qed.

Lemma lookup_insert_same {A} (l : list A) i x y :
  l !! i = Some y -> <[i := x]> l !! i = Some x.
Proof. intros H. apply list_lookup_insert_eq. eapply lookup_lt_Some; eauto. Qed.

End Frames.

(** ** The protocol on a slot in place *)

Section InPlace.
Context {J : Json}.
Implicit Types h : heap Builder.

Lemma out_emit p h : out (emit p h) = out h ++ p.
Proof. reflexivity. Qed.

Lemma slot_frame k p pa h h' :
  slot k p pa h -> frame None None None h h' -> slot k p pa h'.
Proof.
  intros [Hv Hk] (Fv & Fa & Fo). split; [apply Fv; auto; discriminate|].
  destruct k as [|c b|key o b].
  - exact I.
  - apply Fa; [discriminate|exact Hk].
  - destruct Hk as [-> Ho]. split; [reflexivity|]. apply Fo; [discriminate|exact Ho].
Qed.

(** [prewrite] on a slot in place allows the write and sends the separator. *)
Lemma prewrite_slot k p h :
  slot k p false h ->
  exists h1,
    val_prewrite (Some p) h = Ok ((true, single_of k), h1)
    /\ out h1 = out h ++ sep_of k
    /\ slot (touched k) p false h1
    /\ frame (Some p) (arr_of k) (obj_of k) h h1.
Proof.
  intros [Hp Hk]. unfold val_prewrite. mstep (load_val_Ok _ _ _ Hp).
  cbn [val_w val_ctx val_paused].
  destruct k as [|c b|key o b]; cbn [ctx_for ctx_prewrite single_of sep_of touched
                                       arr_of obj_of].
  - exists h. unfold jsonContextSingle_prewrite. mnorm.
    split; [reflexivity|]. split; [symmetry; apply app_nil_r|].
    split; [split; auto|apply frame_refl].
  - unfold jsonContextArray_prewrite. mstep (load_arr_Ok _ _ _ Hk). cbn [arr_nonEmpty].
    destruct b.
    + mstep (Write_Ok h (bytes_of ",")).
      assert (Hk' : arrs (emit (bytes_of ",") h) !! c
                    = Some {| arr_paused := p; arr_nonEmpty := true |}) by exact Hk.
      mstep (set_arr_nonEmpty_Ok _ _ _ true Hk'). mnorm.
      eexists. split; [reflexivity|]. split; [reflexivity|]. split.
      * split; [exact Hp|]. cbn. apply (lookup_insert_same _ _ _ _ Hk).
      * eapply frame_trans; [apply frame_emit|apply frame_set_arr].
    + mnorm. mstep (set_arr_nonEmpty_Ok _ _ _ true Hk). mnorm.
      eexists. split; [reflexivity|]. split; [symmetry; apply app_nil_r|]. split.
      * split; [exact Hp|]. cbn. apply (lookup_insert_same _ _ _ _ Hk).
      * apply frame_set_arr.
  - destruct Hk as [_ Ho]. unfold jsonContextObjectItem_prewrite, obj_prewrite.
    mstep (load_obj_Ok _ _ _ Ho). cbn [obj_w obj_nonEmpty obj_paused is_nil andb].
    destruct b.
    + mstep (Write_Ok h (bytes_of ",")).
      assert (Ho' : objs (emit (bytes_of ",") h) !! o
                    = Some {| obj_w := Some the_wrapper; obj_nonEmpty := true;
                              obj_paused := true |}) by exact Ho.
      mstep (set_obj_nonEmpty_Ok _ _ _ true Ho'). mnorm.
      rewrite (bind_Ok _ _ _ _ _ (Write_Ok _ _)), (bind_Ok _ _ _ _ _ (Write_Ok _ _)).
      mnorm. eexists. split; [reflexivity|]. split.
      { unfold key_text. cbn. rewrite <- ?app_assoc. reflexivity. }
      split.
      * split; [exact Hp|]. split; [reflexivity|]. cbn.
        apply (lookup_insert_same _ _ _ _ Ho).
      * eapply frame_trans; [apply frame_emit|].
        eapply frame_trans; [apply frame_set_obj|].
        eapply frame_trans; apply frame_emit.
    + mnorm. mstep (set_obj_nonEmpty_Ok _ _ _ true Ho). mnorm.
      rewrite (bind_Ok _ _ _ _ _ (Write_Ok _ _)), (bind_Ok _ _ _ _ _ (Write_Ok _ _)).
      mnorm. eexists. split; [reflexivity|]. split.
      { unfold key_text. cbn. rewrite <- ?app_assoc. reflexivity. }
      split.
      * split; [exact Hp|]. split; [reflexivity|]. cbn.
        apply (lookup_insert_same _ _ _ _ Ho).
      * eapply frame_trans; [apply frame_set_obj|].
        eapply frame_trans; apply frame_emit.
Qed.

(** [v.ctx.pause(true)] on a slot in place. *)
Lemma pause_slot k p h :
  slot k p false h ->
  exists h2,
    val_ctx_pause (Some p) true h = Ok (tt, h2)
    /\ out h2 = out h
    /\ slot k p (paused_during k) h2
    /\ frame (Some p) (arr_of k) (obj_of k) h h2.
Proof.
  intros [Hp Hk]. unfold val_ctx_pause. mstep (load_val_Ok _ _ _ Hp).
  cbn [val_ctx].
  destruct k as [|c b|key o b]; cbn [ctx_for ctx_pause paused_during arr_of obj_of].
  - unfold jsonContextSingle_pause. rewrite (set_val_paused_Ok _ _ _ true Hp).
    eexists. split; [reflexivity|]. split; [reflexivity|]. split.
    + split; [|exact I]. cbn. apply (lookup_insert_same _ _ _ _ Hp).
    + apply frame_set_val.
  - unfold jsonContextArray_pause. mstep (load_arr_Ok _ _ _ Hk). cbn [arr_paused].
    rewrite (set_val_paused_Ok _ _ _ true Hp).
    eexists. split; [reflexivity|]. split; [reflexivity|]. split.
    + split; [|exact Hk]. cbn. apply (lookup_insert_same _ _ _ _ Hp).
    + apply frame_set_val.
  - destruct Hk as [_ Ho]. unfold jsonContextObjectItem_pause.
    rewrite (set_obj_paused_Ok _ _ _ true Ho).
    eexists. split; [reflexivity|]. split; [reflexivity|]. split.
    + split; [exact Hp|]. split; [reflexivity|]. cbn.
      apply (lookup_insert_same _ _ _ _ Ho).
    + apply frame_set_obj.
Qed.

(** [v.w.Write(bs)] on a slot in place. *)
Lemma write_slot k p pa bs h :
  slot k p pa h -> val_Write (Some p) bs h = Ok (tt, emit bs h).
Proof. intros [Hp _]. apply (val_Write_Ok _ _ _ _ Hp eq_refl). Qed.

(** [postwrite] on a slot a value has gone through. *)
Lemma postwrite_slot k p pa h :
  slot (touched k) p pa h ->
  exists h',
    val_postwrite (Some p) (single_of k) h = Ok (tt, h')
    /\ out h' = out h
    /\ retired k p h'
    /\ frame (Some p) (arr_of k) (obj_of k) h h'.
Proof.
  intros [Hp Hk]. unfold val_postwrite. mstep (load_val_Ok _ _ _ Hp).
  cbn [val_ctx].
  destruct k as [|c b|key o b];
    cbn [touched ctx_for ctx_pause single_of retired arr_of obj_of] in *.
  - unfold jsonContextSingle_pause. mstep (set_val_paused_Ok _ _ _ false Hp).
    cbn [val_w val_ctx].
    erewrite set_val_ctx_Ok by (cbn; apply (lookup_insert_same _ _ _ _ Hp)).
    eexists. split; [reflexivity|]. split; [reflexivity|]. split.
    + cbn. apply list_lookup_insert_eq. rewrite length_insert.
      eapply lookup_lt_Some; eauto.
    + eapply frame_trans; apply frame_set_val.
  - unfold jsonContextArray_pause. mstep (load_arr_Ok _ _ _ Hk). cbn [arr_paused].
    mstep (set_val_paused_Ok _ _ _ false Hp). mnorm.
    eexists. split; [reflexivity|]. split; [reflexivity|]. split.
    + split; [|exact Hk]. cbn. apply (lookup_insert_same _ _ _ _ Hp).
    + apply frame_set_val.
  - destruct Hk as [-> Ho]. unfold jsonContextObjectItem_pause.
    mstep (set_obj_paused_Ok _ _ _ false Ho).
    erewrite set_val_ctx_Ok by exact Hp.
    eexists. split; [reflexivity|]. split; [reflexivity|]. split.
    + split; cbn; [apply (lookup_insert_same _ _ _ _ Hp)|
                   apply (lookup_insert_same _ _ _ _ Ho)].
    + eapply frame_trans; [apply frame_set_obj|apply frame_set_val].
Qed.

End InPlace.

(** ** Writing documents *)

Section Documents.
Context {J : Json}.
Implicit Types h : heap Builder.

Lemma joined_false ts : joined false ts = join (bytes_of ",") ts.
Proof.
  destruct ts as [|t ts]; [reflexivity|]. cbn [joined]. rewrite app_nil_l.
  revert t. induction ts as [|t' ts IH]; intros t.
  - cbn. apply app_nil_r.
  - change (join (bytes_of ",") (t :: t' :: ts))
      with (t ++ bytes_of "," ++ join (bytes_of ",") (t' :: ts)).
    cbn [joined]. f_equal. f_equal. apply IH.
Qed.

(** A join of [n] texts holds their bytes and [n - 1] separators. *)
Lemma length_join ts :
  length (join (bytes_of ",") ts) = (total_length ts + (length ts - 1))%nat.
Proof.
  unfold total_length. destruct ts as [|t ts]; [reflexivity|].
  revert t. induction ts as [|t' ts IH]; intros t.
  - cbn. rewrite app_nil_r. lia.
  - change (join (bytes_of ",") (t :: t' :: ts))
      with (t ++ bytes_of "," ++ join (bytes_of ",") (t' :: ts)).
    rewrite !length_app, IH. cbn [concat length].
    rewrite !length_app. cbn. lia.
Qed.

Lemma bind_unit (m : M (heap Builder) unit) h : bind m (fun _ => ret tt) h = m h.
Proof. unfold bind, ret. destruct (m h) as [[[] h']|]; reflexivity. Qed.

Lemma write_elem_as_op (e : elem) (v : V) h :
  write_elem e v h = (_ <- do_write (elem_op e) v ;; ret tt) h.
Proof.
  destruct e; cbn [write_elem elem_op do_write]; mnorm;
    try (symmetry; apply bind_unit).
  reflexivity.
Qed.

(** The protocol around a payload, on a slot in place. *)
Lemma protocol_slot (op : write_op) k p h (text : bytes) :
  slot k p false h ->
  (forall h1, slot (touched k) p false h1 ->
     exists h2 pa,
       payload op (Some p) h1 = Ok (None, h2)
       /\ out h2 = out h1 ++ text
       /\ slot (touched k) p pa h2
       /\ frame (Some p) (arr_of k) (obj_of k) h1 h2) ->
  exists h',
    do_write op (Some p) h = Ok (None, h')
    /\ out h' = out h ++ sep_of k ++ text
    /\ retired k p h'
    /\ frame (Some p) (arr_of k) (obj_of k) h h'.
Proof.
  intros Hs Hpay.
  destruct (prewrite_slot _ _ _ Hs) as (h1 & Hpre & Ho1 & Hs1 & F1).
  destruct (Hpay _ Hs1) as (h2 & pa & Hp2 & Ho2 & Hs2 & F2).
  destruct (postwrite_slot _ _ _ _ Hs2) as (h3 & Hpost & Ho3 & Hr & F3).
  exists h3. split.
  - rewrite do_write_protocol. mstep Hpre. cbn [fst snd].
    mstep Hp2. mstep Hpost. reflexivity.
  - split; [rewrite Ho3, Ho2, Ho1, <- app_assoc; reflexivity|].
    split; [exact Hr|].
    eapply frame_trans; [exact F1|]. eapply frame_trans; [exact F2|exact F3].
Qed.

(** The payload of a scalar or of a value whose marshaling succeeds. *)
Lemma payload_text (op : write_op) (text : bytes) k p h :
  (forall v h', payload op v h' = (val_Write v text ;; ret None) h') ->
  slot k p false h ->
  exists h2 pa,
    payload op (Some p) h = Ok (None, h2)
    /\ out h2 = out h ++ text
    /\ slot k p pa h2
    /\ frame (Some p) (arr_of k) (obj_of k) h h2.
Proof.
  intros Hop Hs. exists (emit text h), false. rewrite Hop.
  mstep (write_slot _ _ _ text _ Hs).
  split; [reflexivity|]. split; [reflexivity|].
  split; [exact Hs|apply frame_emit].
Qed.

End Documents.

Section Composites.
Context {J : Json}.
Implicit Types h : heap Builder.

Lemma new_val_Ok x h :
  new_val x h = Ok (length (vals h), upd_vals (fun l => l ++ [x]) h).
Proof. reflexivity. Qed.

Lemma new_arr_Ok x h :
  new_arr x h = Ok (length (arrs h), upd_arrs (fun l => l ++ [x]) h).
Proof. reflexivity. Qed.

Lemma new_obj_Ok x h :
  new_obj x h = Ok (length (objs h), upd_objs (fun l => l ++ [x]) h).
Proof. reflexivity. Qed.

Lemma frame_weaken ev ea eo h h' :
  frame None None None h h' -> frame ev ea eo h h'.
Proof.
  intros (Fv & Fa & Fo). repeat split; intros i x _ Hi;
    [apply Fv|apply Fa|apply Fo]; auto; discriminate.
Qed.

(** The payload of [Array]: the brackets around what the callback writes
    through the handle it is given, which stands in a new, empty array. *)
Lemma array_payload k p h (body : V -> M (heap Builder) unit) (text : bytes) :
  slot k p false h ->
  (forall a c h4, slot (KArr c false) a false h4 ->
     exists h5 b,
       body (Some a) h4 = Ok (tt, h5)
       /\ out h5 = out h4 ++ text
       /\ slot (KArr c b) a false h5
       /\ frame (Some a) (Some c) None h4 h5) ->
  exists h' pa,
    payload (OpArray (Some body)) (Some p) h = Ok (None, h')
    /\ out h' = out h ++ bytes_of "[" ++ text ++ bytes_of "]"
    /\ slot k p pa h'
    /\ frame (Some p) (arr_of k) (obj_of k) h h'.
Proof.
  intros Hs Hbody. cbn [payload].
  destruct (pause_slot _ _ _ Hs) as (h2 & Hpause & Ho2 & Hs2 & F2).
  mstep Hpause.
  mstep (write_slot _ _ _ (bytes_of "[") _ Hs2).
  set (h3 := emit (bytes_of "[") h2).
  assert (Hs3 : slot k p (paused_during k) h3) by exact Hs2.
  assert (Ho3 : out h3 = out h ++ bytes_of "[") by (cbn; rewrite Ho2; reflexivity).
  mstep (load_val_Ok _ _ _ (proj1 Hs3)). cbn [val_w].
  mstep (new_val_Ok {| val_w := Some the_wrapper; val_ctx := None; val_paused := false |} h3).
  set (a := length (vals h3)).
  set (h3a := upd_vals _ h3).
  mstep (new_arr_Ok {| arr_paused := a; arr_nonEmpty := false |} h3a).
  set (c := length (arrs h3a)).
  set (h3b := upd_arrs _ h3a).
  assert (Ha : vals h3b !! a
               = Some {| val_w := Some the_wrapper; val_ctx := None; val_paused := false |}).
  { cbn. apply list_lookup_middle. reflexivity. }
  mstep (set_val_ctx_Ok _ _ _ (Some (jsonContextArrayPtr c)) Ha). cbn [val_w val_paused].
  set (h4 := upd_vals _ h3b).
  assert (Hs4 : slot (KArr c false) a false h4).
  { split; cbn; [apply (lookup_insert_same _ _ _ _ Ha)|].
    apply list_lookup_middle. reflexivity. }
  assert (F34 : frame None None None h3 h4).
  { eapply frame_step; [eapply frame_step|apply (frame_set_val None None)|..].
    - apply (frame_new_val None None None).
    - apply (frame_new_arr None None None).
    - exact I.
    - exact I.
    - exact I.
    - apply covered_fresh.
    - exact I.
    - exact I. }
  destruct (Hbody _ _ _ Hs4) as (h5 & b & Hrun & Ho5 & Hs5 & F5).
  mstep Hrun.
  mstep (set_val_w_Ok _ _ _ None (proj1 Hs5)). cbn [val_ctx val_paused].
  set (h6 := upd_vals _ h5).
  assert (F36 : frame None None None h3 h6).
  { eapply frame_step; [eapply frame_step; [exact F34|exact F5|..]
                       |apply (frame_set_val None None)|..].
    - apply covered_fresh.
    - apply covered_fresh.
    - exact I.
    - apply covered_fresh.
    - exact I.
    - exact I. }
  assert (Hs6 : slot k p (paused_during k) h6) by (eapply slot_frame; eauto).
  mstep (write_slot _ _ _ (bytes_of "]") _ Hs6). mnorm.
  eexists. exists (paused_during k). split; [reflexivity|]. split.
  { rewrite out_emit. change (out h6) with (out h5). rewrite Ho5.
    change (out h4) with (out h3). rewrite Ho3, <- !app_assoc. reflexivity. }
  split; [exact Hs6|].
  eapply frame_trans; [exact F2|].
  apply frame_weaken. eapply frame_trans; [|apply frame_emit].
  eapply frame_trans; [apply frame_emit|exact F36].
Qed.

End Composites.

Section Bodies.
Context {J : Json}.
Implicit Types h : heap Builder.

(** The payload of [Object]: the braces around what the callback writes
    through the builder it is given, which is new and has emitted nothing. *)
Lemma object_payload k p h (body : K -> M (heap Builder) unit) (text : bytes) :
  slot k p false h ->
  (forall o h4,
     objs h4 !! o = Some {| obj_w := Some the_wrapper; obj_nonEmpty := false;
                            obj_paused := false |} ->
     exists h5 x,
       body (Some o) h4 = Ok (tt, h5)
       /\ out h5 = out h4 ++ text
       /\ objs h5 !! o = Some x
       /\ frame None None (Some o) h4 h5) ->
  exists h' pa,
    payload (OpObject (Some body)) (Some p) h = Ok (None, h')
    /\ out h' = out h ++ bytes_of "{" ++ text ++ bytes_of "}"
    /\ slot k p pa h'
    /\ frame (Some p) (arr_of k) (obj_of k) h h'.
Proof.
  intros Hs Hbody. cbn [payload].
  destruct (pause_slot _ _ _ Hs) as (h2 & Hpause & Ho2 & Hs2 & F2).
  mstep Hpause.
  mstep (write_slot _ _ _ (bytes_of "{") _ Hs2).
  set (h3 := emit (bytes_of "{") h2).
  assert (Hs3 : slot k p (paused_during k) h3) by exact Hs2.
  assert (Ho3 : out h3 = out h ++ bytes_of "{") by (cbn; rewrite Ho2; reflexivity).
  mstep (load_val_Ok _ _ _ (proj1 Hs3)). cbn [val_w].
  mstep (new_obj_Ok {| obj_w := Some the_wrapper; obj_nonEmpty := false;
                       obj_paused := false |} h3).
  set (o := length (objs h3)).
  set (h4 := upd_objs _ h3).
  assert (Hobj : objs h4 !! o = Some {| obj_w := Some the_wrapper; obj_nonEmpty := false;
                                        obj_paused := false |}).
  { cbn. apply list_lookup_middle. reflexivity. }
  destruct (Hbody _ _ Hobj) as (h5 & x & Hrun & Ho5 & Hx & F5).
  mstep Hrun.
  mstep (set_obj_w_Ok _ _ _ None Hx).
  set (h6 := upd_objs _ h5).
  assert (F36 : frame None None None h3 h6).
  { eapply frame_step; [eapply frame_step; [apply (frame_new_obj None None None)
                                           |exact F5|..]
                       |apply (frame_set_obj None None)|..].
    - exact I.
    - exact I.
    - apply covered_fresh.
    - exact I.
    - exact I.
    - apply covered_fresh. }
  assert (Hs6 : slot k p (paused_during k) h6) by (eapply slot_frame; eauto).
  mstep (write_slot _ _ _ (bytes_of "}") _ Hs6). mnorm.
  eexists. exists (paused_during k). split; [reflexivity|]. split.
  { rewrite out_emit. change (out h6) with (out h5). rewrite Ho5.
    change (out h4) with (out h3). rewrite Ho3, <- !app_assoc. reflexivity. }
  split; [exact Hs6|].
  eapply frame_trans; [exact F2|].
  apply frame_weaken. eapply frame_trans; [|apply frame_emit].
  eapply frame_trans; [apply frame_emit|exact F36].
Qed.

(** The body of an array callback: one write per element on the handle. *)
Lemma each_array (es : list elem) :
  Forall writes_text es ->
  forall b a c h,
    slot (KArr c b) a false h ->
    exists h' b',
      each (fun e => write_elem e (Some a)) es h = Ok (tt, h')
      /\ out h' = out h ++ joined b (map encode es)
      /\ slot (KArr c b') a false h'
      /\ frame (Some a) (Some c) None h h'.
Proof.
  induction 1 as [|e es He _ IH]; intros b a c h Hs.
  - exists h, b. split; [reflexivity|]. split; [symmetry; apply app_nil_r|].
    split; [exact Hs|apply frame_refl].
  - destruct (He _ _ _ Hs) as (h1 & Hrun & Ho1 & Hr & F1).
    destruct (IH true a c h1 Hr) as (h' & b' & Hrest & Ho' & Hs' & F').
    exists h', b'. split.
    + cbn [each]. mstep Hrun. exact Hrest.
    + split; [|split; [exact Hs'|eapply frame_trans; eauto]].
      rewrite Ho', Ho1. cbn [map joined sep_of]. rewrite <- !app_assoc. reflexivity.
Qed.

(** The body of an object callback: one [Item] and one write per pair. *)
Lemma each_object (kvs : list (string * elem)) :
  Forall (fun kv => writes_text (snd kv)) kvs ->
  forall b o h,
    objs h !! o = Some {| obj_w := Some the_wrapper; obj_nonEmpty := b;
                          obj_paused := false |} ->
    exists h' b',
      each (fun kv => let '(key, e') := kv in
                      item <- obj_Item (Some o) key ;; write_elem e' item) kvs h
      = Ok (tt, h')
      /\ out h' = out h ++ joined b (map pair_text kvs)
      /\ objs h' !! o = Some {| obj_w := Some the_wrapper; obj_nonEmpty := b';
                                obj_paused := false |}
      /\ frame None None (Some o) h h'.
Proof.
  induction 1 as [|[key e] kvs He _ IH]; intros b o h Hobj.
  - exists h, b. split; [reflexivity|]. split; [symmetry; apply app_nil_r|].
    split; [exact Hobj|apply frame_refl].
  - cbn [snd] in He. cbn [each]. unfold obj_Item.
    mstep (load_obj_Ok _ _ _ Hobj). cbn [obj_paused negb obj_w].
    mstep (set_obj_paused_Ok _ _ _ true Hobj). cbn [obj_w obj_nonEmpty].
    set (h1 := upd_objs _ h).
    mstep (new_val_Ok {| val_w := Some the_wrapper;
                         val_ctx := Some (jsonContextObjectItem key o);
                         val_paused := false |} h1).
    set (item := length (vals h1)).
    set (h2 := upd_vals _ h1). mnorm.
    assert (Hs2 : slot (KItem key o b) item false h2).
    { split; [cbn; apply list_lookup_middle; reflexivity|].
      split; [reflexivity|]. cbn. apply (lookup_insert_same _ _ _ _ Hobj). }
    destruct (He _ _ _ Hs2) as (h3 & Hrun & Ho3 & [_ Hobj3] & F3).
    destruct (IH true o h3 Hobj3) as (h' & b' & Hrest & Ho' & Hobj' & F').
    exists h', b'. split; [mstep Hrun; exact Hrest|].
    split.
    { rewrite Ho', Ho3. change (out h2) with (out h).
      cbn [map joined sep_of pair_text]. rewrite <- !app_assoc. reflexivity. }
    split; [exact Hobj'|].
    eapply frame_trans; [|exact F'].
    eapply frame_step; [eapply frame_trans; [apply (frame_set_obj None None)
                                            |apply (frame_new_val None None (Some o))]
                       |exact F3|..].
    + apply covered_fresh.
    + exact I.
    + left. reflexivity.
Qed.

End Bodies.

Section Encoding.
Context {J : Json}.
Implicit Types h : heap Builder.

(** Induction on documents, with the hypothesis on every element of an
    array and on every value of an object. *)
Lemma elem_nested_ind (P : elem -> Prop) :
  (forall sc, P (EScalar sc)) ->
  (forall value, P (EMarshal value)) ->
  (forall es, Forall P es -> P (EArray es)) ->
  (forall kvs, Forall (fun kv => P (snd kv)) kvs -> P (EObject kvs)) ->
  forall e, P e.
Proof.
  intros Hsc Hm Ha Ho. fix IH 1. intros [sc|value|es|kvs].
  - apply Hsc.
  - apply Hm.
  - apply Ha. induction es as [|e es IHes]; constructor; [apply IH|exact IHes].
  - apply Ho. induction kvs as [|[key e] kvs IHkvs]; constructor;
      [apply IH|exact IHkvs].
Qed.

Lemma writes_text_of_op (e : elem) (text : bytes) :
  (forall k p h, slot k p false h ->
     exists h2 pa,
       payload (elem_op e) (Some p) h = Ok (None, h2)
       /\ out h2 = out h ++ text
       /\ slot k p pa h2
       /\ frame (Some p) (arr_of k) (obj_of k) h h2) ->
  encode e = text ->
  writes_text e.
Proof.
  intros Hpay <- k p h Hs.
  destruct (protocol_slot (elem_op e) k p h (encode e) Hs) as (h' & Hrun & Ho & Hr & F).
  { intros h1 Hs1. destruct (Hpay _ _ _ Hs1) as (h2 & pa & H2 & Ho2 & Hs2 & F2).
    exists h2, pa. split; [exact H2|]. split; [exact Ho2|]. split; [exact Hs2|].
    destruct k; exact F2. }
  exists h'. split; [|auto].
  rewrite write_elem_as_op. mstep Hrun. reflexivity.
Qed.

(** Every document whose marshals succeed is written as its text. *)
Lemma write_elem_spec (e : elem) : marshals_ok e = true -> writes_text e.
Proof.
  induction e as [sc|value|es IH|kvs IH] using elem_nested_ind; intros Hok.
  - apply (writes_text_of_op _ (scalar_text sc)); [|reflexivity].
    intros k p h Hs. apply payload_text; [reflexivity|exact Hs].
  - apply (writes_text_of_op _ (fst (json_Marshal value))); [|reflexivity].
    intros k p h Hs. apply payload_text; [|exact Hs].
    intros v h'. cbn [elem_op payload]. cbn [marshals_ok] in Hok.
    destruct (snd (json_Marshal value)); [discriminate|reflexivity].
  - apply (writes_text_of_op _ (encode (EArray es))); [|reflexivity].
    intros k p h Hs. cbn [elem_op encode].
    apply array_payload; [exact Hs|]. intros a c h4 Hs4.
    assert (Hall : Forall writes_text es).
    { cbn [marshals_ok] in Hok. rewrite forallb_forall in Hok.
      rewrite Forall_forall in *. intros e He. apply IH; [exact He|].
      apply Hok. apply list_elem_of_In. exact He. }
    destruct (each_array es Hall false a c h4 Hs4) as (h5 & b & Hrun & Ho & Hs5 & F).
    exists h5, b. rewrite joined_false in Ho. auto.
  - apply (writes_text_of_op _ (encode (EObject kvs))); [|reflexivity].
    intros k p h Hs. cbn [elem_op encode].
    apply object_payload; [exact Hs|]. intros o h4 Hobj.
    assert (Hall : Forall (fun kv => writes_text (snd kv)) kvs).
    { cbn [marshals_ok] in Hok. rewrite forallb_forall in Hok.
      rewrite Forall_forall in *. intros [key e] He. apply (IH _ He).
      apply (Hok (key, e)). apply list_elem_of_In. exact He. }
    destruct (each_object kvs Hall false o h4 Hobj) as (h5 & b & Hrun & Ho & Hobj5 & F).
    exists h5. eexists. rewrite joined_false in Ho.
    split; [exact Hrun|]. split; [exact Ho|]. split; [exact Hobj5|exact F].
Qed.

End Encoding.

(** C6: the callback of [Array], on the root slot of a new stream writer,
    makes one write per element of [es] on the handle it is given, each a
    scalar, a successful [Marshal], or an array or object written the same
    way.  The sink then holds an opening bracket, the texts of the elements
    joined by commas, and a closing bracket; besides the brackets and the
    bytes of the elements it holds [length es - 1] bytes, the commas, and
    none when there are no elements or one. *)
Theorem C6_array_of_N_elements {J : Json} (es : list elem) :
  forallb marshals_ok es = true ->
  output (fun v => val_Array v (Some (fun a => each (fun e => write_elem e a) es)))
  = Ok (bytes_of "[" ++ join (bytes_of ",") (map encode es) ++ bytes_of "]")
  /\ length (bytes_of "[" ++ join (bytes_of ",") (map encode es) ++ bytes_of "]")
     = (2 + total_length (map encode es) + (length es - 1))%nat.
Proof.
  intros Hok. split.
  - destruct (write_elem_spec (EArray es) Hok KRoot 0%nat (fst (NewStreamWriter ([] : Builder))))
      as (h' & Hrun & Ho & _).
    { split; [reflexivity|exact I]. }
    unfold output. cbn [NewStreamWriter]. cbn [write_elem] in Hrun.
    cbn [NewStreamWriter fst] in Hrun. rewrite Hrun. rewrite Ho. reflexivity.
  - rewrite !length_app, length_join, length_map. cbn. lia.
Qed.

(** The array of the scenario: [Int(123)], [String("Hello")], [Bool(true)]. *)
Lemma C6_array_of_N_elements_witness :
  output (J := gv_Json) (fun v => val_Array v (Some (fun a =>
            each (fun e => write_elem e a)
              [EScalar (SInt 123); EScalar (SString "Hello"); EScalar (SBool true)])))
  = Ok (js "[123,'Hello',true]")
  /\ length (js "[123,'Hello',true]") = (2 + (3 + 7 + 4) + (3 - 1))%nat.
Proof.
  exact (C6_array_of_N_elements (J := gv_Json)
           [EScalar (SInt 123); EScalar (SString "Hello"); EScalar (SBool true)]
           eq_refl).
Defined.

(** ** Scenarios of the test file *)

Example scenario_nested_array :
  output (J := gv_Json) (fun v => val_Array v (Some (fun a =>
            val_Int a 123 ;;
            val_String a "abc" ;;
            val_Array a (Some (fun a2 => val_String a2 "nested")) ;;
            val_Bool a true)))
  = Ok (js "[123,'abc',['nested'],true]").
Proof. reflexivity. Qed.

Example scenario_nested_object :
  output (J := gv_Json) (fun v => val_Object v (Some (fun o =>
            x <- obj_Item o "x" ;; val_Int x 123 ;;
            n <- obj_Item o "nested" ;;
            val_Object n (Some (fun nested =>
              y <- obj_Item nested "y" ;;
              val_Array y (Some (fun a => val_Bool a false)))) ;;
            z <- obj_Item o "z" ;; val_Object z None)))
  = Ok (js "{'x':123,'nested':{'y':[false]},'z':{}}").
Proof. reflexivity. Qed.

Example scenario_array_write_in_nested_context :
  output (J := gv_Json) (fun v => val_Array v (Some (fun a =>
            val_Int a 1 ;;
            val_Object a (Some (fun _ => val_Int a 2)) ;;
            val_Int a 3)))
  = Ok (js "[1,{},3]").
Proof. reflexivity. Qed.

Example scenario_object_write_in_nested_context :
  output (J := gv_Json) (fun v => val_Object v (Some (fun o =>
            a <- obj_Item o "a" ;; val_Int a 1 ;;
            b <- obj_Item o "b" ;;
            val_Array b (Some (fun _ => c <- obj_Item o "c" ;; val_Int c 2)) ;;
            d <- obj_Item o "d" ;;
            val_Object d (Some (fun _ => e <- obj_Item o "e" ;; val_Int e 3)) ;;
            f <- obj_Item o "f" ;; val_Int f 4)))
  = Ok (js "{'a':1,'b':[],'d':{},'f':4}").
Proof. reflexivity. Qed.

Example scenario_items_without_value :
  output (J := gv_Json) (fun v => val_Object v (Some (fun o =>
            x <- obj_Item o "x" ;; val_Int x 123 ;;
            _ <- obj_Item o "ignored" ;;
            y <- obj_Item o "y" ;; val_Int y 456)))
  = Ok (js "{'x':123}").
Proof. reflexivity. Qed.

Example scenario_Marshal_inside_object :
  output (J := gv_Json) (fun v => val_Object v (Some (fun o =>
            x <- obj_Item o "x" ;; val_Int x 123 ;;
            _ <- obj_Marshal o [("mA"%string, GString "abc");
                                ("mB"%string, GString "def")] ;;
            y <- obj_Item o "y" ;; val_Bool y true)))
  = Ok (js "{'x':123,'mA':'abc','mB':'def','y':true}").
Proof. reflexivity. Qed.

Example scenario_writer_error :
  let h0 := fst (NewStreamWriter {| sbw_Builder := []; Limit := 10 |}) in
  match val_Array (J := gv_Json) (Some 0%nat) (Some (fun a =>
          val_Int a 12345 ;;
          e1 <- val_Error (Some 0%nat) ;;
          val_Int a 67890 ;;
          e2 <- val_Error (Some 0%nat) ;;
          assign (if is_nil e1 && negb (is_nil e2) then "as expected" else "unexpected")
                 None)) h0 with
  | Ok (_, h) =>
      map fst (locals h) = ["as expected"%string]
      /\ Err (wrapper h) = Some "Buffer length 13 exceeds limit 10."%string
      /\ sbw_Builder (ww_w (wrapper h)) = bytes_of "[12345,67890]"
  | Panic => False
  end.
Proof. cbv zeta. vm_compute. repeat split. Qed.

(** * Further properties *)

(** ** The protocol on a slot in place, over any sink *)

Section InPlaceAny.
Context {S : Type} {WS : Writer S} {J : Json}.
Implicit Types h : heap S.

Lemma wwrites_app (ww : writerWrapper S) ps qs :
  wwrites ww (ps ++ qs) = wwrites (wwrites ww ps) qs.
Proof. apply fold_left_app. Qed.

Lemma wwrites_nil (ww : writerWrapper S) : wwrites ww [] = ww.
Proof. reflexivity. Qed.

Lemma wrapper_emit p h : wrapper (emit p h) = wwrites (wrapper h) [p].
Proof. reflexivity. Qed.

Lemma wwrites_sink (ww : writerWrapper S) ps :
  ww_w (wwrites ww ps) = sink_after (ww_w ww) ps.
Proof.
  revert ww. induction ps as [|p ps IH]; intros ww; [reflexivity|].
  cbn [wwrites fold_left sink_after]. unfold wwrites in IH. rewrite IH.
  rewrite writerWrapper_Write_sink. reflexivity.
Qed.

Lemma wwrites_Err (ww : writerWrapper S) ps :
  Err (wwrites ww ps) = last_error (Err ww) (sink_errors (ww_w ww) ps).
Proof.
  revert ww. induction ps as [|p ps IH]; intros ww; [reflexivity|].
  cbn [wwrites fold_left sink_errors]. unfold wwrites in IH. rewrite IH.
  rewrite writerWrapper_Write_sink, writerWrapper_Write_Err. cbn [last_error].
  destruct (snd (snd (io_Write (ww_w ww) p))); reflexivity.
Qed.

Lemma slot_frame_any k p pa h h' :
  slot k p pa h -> frame None None None h h' -> slot k p pa h'.
Proof.
  intros [Hv Hk] (Fv & Fa & Fo). split; [apply Fv; [discriminate|exact Hv]|].
  destruct k as [|c b|key o b].
  - exact I.
  - apply Fa; [discriminate|exact Hk].
  - destruct Hk as [-> Ho]. split; [reflexivity|]. apply Fo; [discriminate|exact Ho].
Qed.

Lemma frame_all ev ea eo h h' :
  frame None None None h h' -> frame ev ea eo h h'.
Proof.
  intros (Fv & Fa & Fo). repeat split; intros i x _ Hi;
    [apply Fv|apply Fa|apply Fo]; auto; discriminate.
Qed.

(** [prewrite] allows the write and makes the writes of the separator. *)
Lemma prewrite_any k p h :
  slot k p false h ->
  exists h1,
    val_prewrite (Some p) h = Ok ((true, single_of k), h1)
    /\ wrapper h1 = wwrites (wrapper h) (sep_chunks k)
    /\ slot (touched k) p false h1
    /\ frame (Some p) (arr_of k) (obj_of k) h h1.
Proof.
  intros [Hp Hk]. unfold val_prewrite. mstep (load_val_Ok _ _ _ Hp).
  cbn [val_w val_ctx val_paused].
  destruct k as [|c b|key o b]; cbn [ctx_for ctx_prewrite single_of sep_chunks touched
                                       arr_of obj_of].
  - exists h. unfold jsonContextSingle_prewrite. mnorm.
    split; [reflexivity|]. split; [reflexivity|].
    split; [split; auto|apply frame_refl].
  - unfold jsonContextArray_prewrite. mstep (load_arr_Ok _ _ _ Hk). cbn [arr_nonEmpty].
    destruct b.
    + mstep (Write_Ok h (bytes_of ",")).
      assert (Hk' : arrs (emit (bytes_of ",") h) !! c
                    = Some {| arr_paused := p; arr_nonEmpty := true |}) by exact Hk.
      mstep (set_arr_nonEmpty_Ok _ _ _ true Hk'). mnorm.
      eexists. split; [reflexivity|]. split; [reflexivity|]. split.
      * split; [exact Hp|]. cbn. apply (lookup_insert_same _ _ _ _ Hk).
      * eapply frame_trans; [apply frame_emit|apply frame_set_arr].
    + mnorm. mstep (set_arr_nonEmpty_Ok _ _ _ true Hk). mnorm.
      eexists. split; [reflexivity|]. split; [reflexivity|]. split.
      * split; [exact Hp|]. cbn. apply (lookup_insert_same _ _ _ _ Hk).
      * apply frame_set_arr.
  - destruct Hk as [_ Ho]. unfold jsonContextObjectItem_prewrite, obj_prewrite.
    mstep (load_obj_Ok _ _ _ Ho). cbn [obj_w obj_nonEmpty obj_paused is_nil andb].
    destruct b.
    + mstep (Write_Ok h (bytes_of ",")).
      assert (Ho' : objs (emit (bytes_of ",") h) !! o
                    = Some {| obj_w := Some the_wrapper; obj_nonEmpty := true;
                              obj_paused := true |}) by exact Ho.
      mstep (set_obj_nonEmpty_Ok _ _ _ true Ho'). mnorm.
      rewrite (bind_Ok _ _ _ _ _ (Write_Ok _ _)), (bind_Ok _ _ _ _ _ (Write_Ok _ _)).
      mnorm. eexists. split; [reflexivity|]. split; [reflexivity|]. split.
      * split; [exact Hp|]. split; [reflexivity|]. cbn.
        apply (lookup_insert_same _ _ _ _ Ho).
      * eapply frame_trans; [apply frame_emit|].
        eapply frame_trans; [apply frame_set_obj|].
        eapply frame_trans; apply frame_emit.
    + mnorm. mstep (set_obj_nonEmpty_Ok _ _ _ true Ho). mnorm.
      rewrite (bind_Ok _ _ _ _ _ (Write_Ok _ _)), (bind_Ok _ _ _ _ _ (Write_Ok _ _)).
      mnorm. eexists. split; [reflexivity|]. split; [reflexivity|]. split.
      * split; [exact Hp|]. split; [reflexivity|]. cbn.
        apply (lookup_insert_same _ _ _ _ Ho).
      * eapply frame_trans; [apply frame_set_obj|].
        eapply frame_trans; apply frame_emit.
Qed.

(** [v.ctx.pause(true)] writes nothing and pauses the root slot or the
    slot of an array; for an item slot it pauses the builder. *)
Lemma pause_any k p h :
  slot k p false h ->
  exists h2,
    val_ctx_pause (Some p) true h = Ok (tt, h2)
    /\ wrapper h2 = wrapper h
    /\ slot k p (paused_during k) h2
    /\ frame (Some p) (arr_of k) (obj_of k) h h2.
Proof.
  intros [Hp Hk]. unfold val_ctx_pause. mstep (load_val_Ok _ _ _ Hp).
  cbn [val_ctx].
  destruct k as [|c b|key o b]; cbn [ctx_for ctx_pause paused_during arr_of obj_of].
  - unfold jsonContextSingle_pause. rewrite (set_val_paused_Ok _ _ _ true Hp).
    eexists. split; [reflexivity|]. split; [reflexivity|]. split.
    + split; [|exact I]. cbn. apply (lookup_insert_same _ _ _ _ Hp).
    + apply frame_set_val.
  - unfold jsonContextArray_pause. mstep (load_arr_Ok _ _ _ Hk). cbn [arr_paused].
    rewrite (set_val_paused_Ok _ _ _ true Hp).
    eexists. split; [reflexivity|]. split; [reflexivity|]. split.
    + split; [|exact Hk]. cbn. apply (lookup_insert_same _ _ _ _ Hp).
    + apply frame_set_val.
  - destruct Hk as [_ Ho]. unfold jsonContextObjectItem_pause.
    rewrite (set_obj_paused_Ok _ _ _ true Ho).
    eexists. split; [reflexivity|]. split; [reflexivity|]. split.
    + split; [exact Hp|]. split; [reflexivity|]. cbn.
      apply (lookup_insert_same _ _ _ _ Ho).
    + apply frame_set_obj.
Qed.

Lemma write_any k p pa bs h :
  slot k p pa h -> val_Write (Some p) bs h = Ok (tt, emit bs h).
Proof. intros [Hp _]. apply (val_Write_Ok _ _ _ _ Hp eq_refl). Qed.

(** [postwrite] writes nothing and retires the slot. *)
Lemma postwrite_any k p pa h :
  slot (touched k) p pa h ->
  exists h',
    val_postwrite (Some p) (single_of k) h = Ok (tt, h')
    /\ wrapper h' = wrapper h
    /\ retired k p h'
    /\ frame (Some p) (arr_of k) (obj_of k) h h'.
Proof.
  intros [Hp Hk]. unfold val_postwrite. mstep (load_val_Ok _ _ _ Hp).
  cbn [val_ctx].
  destruct k as [|c b|key o b];
    cbn [touched ctx_for ctx_pause single_of retired arr_of obj_of] in *.
  - unfold jsonContextSingle_pause. mstep (set_val_paused_Ok _ _ _ false Hp).
    cbn [val_w val_ctx].
    erewrite set_val_ctx_Ok by (cbn; apply (lookup_insert_same _ _ _ _ Hp)).
    eexists. split; [reflexivity|]. split; [reflexivity|]. split.
    + cbn. apply list_lookup_insert_eq. rewrite length_insert.
      eapply lookup_lt_Some; eauto.
    + eapply frame_trans; apply frame_set_val.
  - unfold jsonContextArray_pause. mstep (load_arr_Ok _ _ _ Hk). cbn [arr_paused].
    mstep (set_val_paused_Ok _ _ _ false Hp). mnorm.
    eexists. split; [reflexivity|]. split; [reflexivity|]. split.
    + split; [|exact Hk]. cbn. apply (lookup_insert_same _ _ _ _ Hp).
    + apply frame_set_val.
  - destruct Hk as [-> Ho]. unfold jsonContextObjectItem_pause.
    mstep (set_obj_paused_Ok _ _ _ false Ho).
    erewrite set_val_ctx_Ok by exact Hp.
    eexists. split; [reflexivity|]. split; [reflexivity|]. split.
    + split; cbn; [apply (lookup_insert_same _ _ _ _ Hp)|
                   apply (lookup_insert_same _ _ _ _ Ho)].
    + eapply frame_trans; [apply frame_set_obj|apply frame_set_val].
Qed.

(** The protocol around a payload that makes the writes [cs]. *)
Lemma protocol_any (op : write_op) k p h (cs : list bytes) :
  slot k p false h ->
  (forall h1, slot (touched k) p false h1 ->
     exists h2 pa r,
       payload op (Some p) h1 = Ok (r, h2)
       /\ wrapper h2 = wwrites (wrapper h1) cs
       /\ slot (touched k) p pa h2
       /\ frame (Some p) (arr_of k) (obj_of k) h1 h2) ->
  exists h' r,
    do_write op (Some p) h = Ok (r, h')
    /\ wrapper h' = wwrites (wrapper h) (sep_chunks k ++ cs)
    /\ retired k p h'
    /\ frame (Some p) (arr_of k) (obj_of k) h h'.
Proof.
  intros Hs Hpay.
  destruct (prewrite_any _ _ _ Hs) as (h1 & Hpre & Ho1 & Hs1 & F1).
  destruct (Hpay _ Hs1) as (h2 & pa & r & Hp2 & Ho2 & Hs2 & F2).
  destruct (postwrite_any _ _ _ _ Hs2) as (h3 & Hpost & Ho3 & Hr & F3).
  exists h3, r. split.
  - rewrite do_write_protocol. mstep Hpre. cbn [fst snd].
    mstep Hp2. mstep Hpost. reflexivity.
  - split; [rewrite Ho3, Ho2, Ho1, wwrites_app; reflexivity|].
    split; [exact Hr|].
    eapply frame_trans; [exact F1|]. eapply frame_trans; [exact F2|exact F3].
Qed.

End InPlaceAny.

(** ** Documents over any sink *)

Section DocumentsAny.
Context {S : Type} {WS : Writer S} {J : Json}.
Implicit Types h : heap S.

Lemma bind_unit_any (m : M (heap S) unit) h : bind m (fun _ => ret tt) h = m h.
Proof. unfold bind, ret. destruct (m h) as [[[] h']|]; reflexivity. Qed.

Lemma write_elem_as_op_any (e : elem) (v : V) h :
  write_elem e v h = (_ <- do_write (elem_op e) v ;; ret tt) h.
Proof.
  destruct e; cbn [write_elem elem_op do_write]; mnorm;
    try (symmetry; apply bind_unit_any).
  reflexivity.
Qed.

Lemma new_val_any x h :
  new_val x h = Ok (length (vals h), upd_vals (fun l => l ++ [x]) h).
Proof. reflexivity. Qed.

Lemma new_arr_any x h :
  new_arr x h = Ok (length (arrs h), upd_arrs (fun l => l ++ [x]) h).
Proof. reflexivity. Qed.

Lemma new_obj_any x h :
  new_obj x h = Ok (length (objs h), upd_objs (fun l => l ++ [x]) h).
Proof. reflexivity. Qed.

(** The payload of [Array] around a callback that makes the writes [cs]
    through the handle it is given.  The callback runs while the slot is
    paused (the builder, for an item slot), on a new handle that stands in
    a new, empty array. *)
Lemma array_payload_any k p h (body : V -> M (heap S) unit) (cs : list bytes) :
  slot k p false h ->
  (forall a c h4,
     a <> p ->
     slot k p (paused_during k) h4 ->
     slot (KArr c false) a false h4 ->
     exists h5 b,
       body (Some a) h4 = Ok (tt, h5)
       /\ wrapper h5 = wwrites (wrapper h4) cs
       /\ slot (KArr c b) a false h5
       /\ frame (Some a) (Some c) None h4 h5) ->
  exists h' pa r,
    payload (OpArray (Some body)) (Some p) h = Ok (r, h')
    /\ wrapper h' = wwrites (wrapper h) ([bytes_of "["] ++ cs ++ [bytes_of "]"])
    /\ slot k p pa h'
    /\ frame (Some p) (arr_of k) (obj_of k) h h'.
Proof.
  intros Hs Hbody. cbn [payload].
  destruct (pause_any _ _ _ Hs) as (h2 & Hpause & Ho2 & Hs2 & F2).
  mstep Hpause.
  mstep (write_any _ _ _ (bytes_of "[") _ Hs2).
  set (h3 := emit (bytes_of "[") h2).
  assert (Hs3 : slot k p (paused_during k) h3) by exact Hs2.
  assert (Ho3 : wrapper h3 = wwrites (wrapper h) [bytes_of "["]).
  { rewrite <- Ho2. reflexivity. }
  mstep (load_val_Ok _ _ _ (proj1 Hs3)). cbn [val_w].
  mstep (new_val_any {| val_w := Some the_wrapper; val_ctx := None;
                        val_paused := false |} h3).
  set (a := length (vals h3)).
  set (h3a := upd_vals _ h3).
  mstep (new_arr_any {| arr_paused := a; arr_nonEmpty := false |} h3a).
  set (c := length (arrs h3a)).
  set (h3b := upd_arrs _ h3a).
  assert (Ha : vals h3b !! a
               = Some {| val_w := Some the_wrapper; val_ctx := None; val_paused := false |}).
  { cbn. apply list_lookup_middle. reflexivity. }
  mstep (set_val_ctx_Ok _ _ _ (Some (jsonContextArrayPtr c)) Ha). cbn [val_w val_paused].
  set (h4 := upd_vals _ h3b).
  assert (Hs4 : slot (KArr c false) a false h4).
  { split; cbn; [apply (lookup_insert_same _ _ _ _ Ha)|].
    apply list_lookup_middle. reflexivity. }
  assert (F34 : frame None None None h3 h4).
  { eapply frame_step; [eapply frame_step|apply (frame_set_val None None)|..].
    - apply (frame_new_val None None None).
    - apply (frame_new_arr None None None).
    - exact I.
    - exact I.
    - exact I.
    - apply covered_fresh.
    - exact I.
    - exact I. }
  assert (Hap : a <> p).
  { intros E. pose proof (lookup_lt_Some _ _ _ (proj1 Hs3)) as Hlt.
    unfold a in E. lia. }
  destruct (Hbody a c h4 Hap (slot_frame_any _ _ _ _ _ Hs3 F34) Hs4)
    as (h5 & b & Hrun & Ho5 & Hs5 & F5).
  mstep Hrun.
  mstep (set_val_w_Ok _ _ _ None (proj1 Hs5)). cbn [val_ctx val_paused].
  set (h6 := upd_vals _ h5).
  assert (F36 : frame None None None h3 h6).
  { eapply frame_step; [eapply frame_step; [exact F34|exact F5|..]
                       |apply (frame_set_val None None)|..].
    - apply covered_fresh.
    - apply covered_fresh.
    - exact I.
    - apply covered_fresh.
    - exact I.
    - exact I. }
  assert (Hs6 : slot k p (paused_during k) h6) by (eapply slot_frame_any; eauto).
  mstep (write_any _ _ _ (bytes_of "]") _ Hs6). mnorm.
  eexists. exists (paused_during k), None. split; [reflexivity|]. split.
  { rewrite wrapper_emit. change (wrapper h6) with (wrapper h5). rewrite Ho5.
    change (wrapper h4) with (wrapper h3). rewrite Ho3, <- !wwrites_app. reflexivity. }
  split; [exact Hs6|].
  eapply frame_trans; [exact F2|].
  apply frame_all. eapply frame_trans; [|apply frame_emit].
  eapply frame_trans; [apply frame_emit|exact F36].
Qed.

(** The payload of [Object] around a callback that makes the writes [cs]
    through the builder it is given, which is new and has emitted nothing. *)
Lemma object_payload_any k p h (body : K -> M (heap S) unit) (cs : list bytes) :
  slot k p false h ->
  (forall o h4,
     slot k p (paused_during k) h4 ->
     objs h4 !! o = Some {| obj_w := Some the_wrapper; obj_nonEmpty := false;
                            obj_paused := false |} ->
     exists h5 x,
       body (Some o) h4 = Ok (tt, h5)
       /\ wrapper h5 = wwrites (wrapper h4) cs
       /\ objs h5 !! o = Some x
       /\ frame None None (Some o) h4 h5) ->
  exists h' pa r,
    payload (OpObject (Some body)) (Some p) h = Ok (r, h')
    /\ wrapper h' = wwrites (wrapper h) ([bytes_of "{"] ++ cs ++ [bytes_of "}"])
    /\ slot k p pa h'
    /\ frame (Some p) (arr_of k) (obj_of k) h h'.
Proof.
  intros Hs Hbody. cbn [payload].
  destruct (pause_any _ _ _ Hs) as (h2 & Hpause & Ho2 & Hs2 & F2).
  mstep Hpause.
  mstep (write_any _ _ _ (bytes_of "{") _ Hs2).
  set (h3 := emit (bytes_of "{") h2).
  assert (Hs3 : slot k p (paused_during k) h3) by exact Hs2.
  assert (Ho3 : wrapper h3 = wwrites (wrapper h) [bytes_of "{"]).
  { rewrite <- Ho2. reflexivity. }
  mstep (load_val_Ok _ _ _ (proj1 Hs3)). cbn [val_w].
  mstep (new_obj_any {| obj_w := Some the_wrapper; obj_nonEmpty := false;
                        obj_paused := false |} h3).
  set (o := length (objs h3)).
  set (h4 := upd_objs _ h3).
  assert (Hobj : objs h4 !! o = Some {| obj_w := Some the_wrapper; obj_nonEmpty := false;
                                        obj_paused := false |}).
  { cbn. apply list_lookup_middle. reflexivity. }
  assert (F34 : frame None None None h3 h4) by apply (frame_new_obj None None None).
  destruct (Hbody o h4 (slot_frame_any _ _ _ _ _ Hs3 F34) Hobj)
    as (h5 & x & Hrun & Ho5 & Hx & F5).
  mstep Hrun.
  mstep (set_obj_w_Ok _ _ _ None Hx).
  set (h6 := upd_objs _ h5).
  assert (F36 : frame None None None h3 h6).
  { eapply frame_step; [eapply frame_step; [exact F34|exact F5|..]
                       |apply (frame_set_obj None None)|..].
    - exact I.
    - exact I.
    - apply covered_fresh.
    - exact I.
    - exact I.
    - apply covered_fresh. }
  assert (Hs6 : slot k p (paused_during k) h6) by (eapply slot_frame_any; eauto).
  mstep (write_any _ _ _ (bytes_of "}") _ Hs6). mnorm.
  eexists. exists (paused_during k), None. split; [reflexivity|]. split.
  { rewrite wrapper_emit. change (wrapper h6) with (wrapper h5). rewrite Ho5.
    change (wrapper h4) with (wrapper h3). rewrite Ho3, <- !wwrites_app. reflexivity. }
  split; [exact Hs6|].
  eapply frame_trans; [exact F2|].
  apply frame_all. eapply frame_trans; [|apply frame_emit].
  eapply frame_trans; [apply frame_emit|exact F36].
Qed.

(** The body of an array callback: one document per element. *)
Lemma each_array_any (es : list elem) :
  Forall (writes_chunks (S := S)) es ->
  forall b a c h,
    slot (KArr c b) a false h ->
    exists h' b',
      each (fun e => write_elem e (Some a)) es h = Ok (tt, h')
      /\ wrapper h' = wwrites (wrapper h) (chunk_seq chunks b es)
      /\ slot (KArr c b') a false h'
      /\ frame (Some a) (Some c) None h h'.
Proof.
  induction 1 as [|e es He _ IH]; intros b a c h Hs.
  - exists h, b. split; [reflexivity|]. split; [reflexivity|].
    split; [exact Hs|apply frame_refl].
  - destruct (He _ _ _ Hs) as (h1 & Hrun & Ho1 & Hr & F1).
    destruct (IH true a c h1 Hr) as (h' & b' & Hrest & Ho' & Hs' & F').
    exists h', b'. split.
    + cbn [each]. mstep Hrun. exact Hrest.
    + split; [|split; [exact Hs'|eapply frame_trans; eauto]].
      rewrite Ho', Ho1. cbn [chunk_seq sep_chunks].
      rewrite <- wwrites_app, <- app_assoc. reflexivity.
Qed.

(** The body of an object callback: one [Item] and one document per pair. *)
Lemma each_object_any (kvs : list (string * elem)) :
  Forall (fun kv => writes_chunks (S := S) (snd kv)) kvs ->
  forall b o h,
    objs h !! o = Some {| obj_w := Some the_wrapper; obj_nonEmpty := b;
                          obj_paused := false |} ->
    exists h' b',
      each (fun kv => let '(key, e') := kv in
                      item <- obj_Item (Some o) key ;; write_elem e' item) kvs h
      = Ok (tt, h')
      /\ wrapper h'
         = wwrites (wrapper h)
             (chunk_seq (fun kv => let '(key, e') := kv in
                                   [key_text key; bytes_of ":"] ++ chunks e') b kvs)
      /\ objs h' !! o = Some {| obj_w := Some the_wrapper; obj_nonEmpty := b';
                                obj_paused := false |}
      /\ frame None None (Some o) h h'.
Proof.
  induction 1 as [|[key e] kvs He _ IH]; intros b o h Hobj.
  - exists h, b. split; [reflexivity|]. split; [reflexivity|].
    split; [exact Hobj|apply frame_refl].
  - cbn [snd] in He. cbn [each]. unfold obj_Item.
    mstep (load_obj_Ok _ _ _ Hobj). cbn [obj_paused negb obj_w].
    mstep (set_obj_paused_Ok _ _ _ true Hobj). cbn [obj_w obj_nonEmpty].
    set (h1 := upd_objs _ h).
    mstep (new_val_any {| val_w := Some the_wrapper;
                          val_ctx := Some (jsonContextObjectItem key o);
                          val_paused := false |} h1).
    set (item := length (vals h1)).
    set (h2 := upd_vals _ h1). mnorm.
    assert (Hs2 : slot (KItem key o b) item false h2).
    { split; [cbn; apply list_lookup_middle; reflexivity|].
      split; [reflexivity|]. cbn. apply (lookup_insert_same _ _ _ _ Hobj). }
    destruct (He _ _ _ Hs2) as (h3 & Hrun & Ho3 & [_ Hobj3] & F3).
    destruct (IH true o h3 Hobj3) as (h' & b' & Hrest & Ho' & Hobj' & F').
    exists h', b'. split; [mstep Hrun; exact Hrest|].
    split.
    { rewrite Ho', Ho3. change (wrapper h2) with (wrapper h).
      cbn [chunk_seq sep_chunks].
      rewrite <- wwrites_app, <- !app_assoc. reflexivity. }
    split; [exact Hobj'|].
    eapply frame_trans; [|exact F'].
    eapply frame_step; [eapply frame_trans; [apply (frame_set_obj None None)
                                            |apply (frame_new_val None None (Some o))]
                       |exact F3|..].
    + apply covered_fresh.
    + exact I.
    + left. reflexivity.
Qed.

Lemma writes_chunks_of_op (e : elem) :
  (forall k p h, slot k p false h ->
     exists h2 pa r,
       payload (elem_op e) (Some p) h = Ok (r, h2)
       /\ wrapper h2 = wwrites (wrapper h) (chunks e)
       /\ slot k p pa h2
       /\ frame (Some p) (arr_of k) (obj_of k) h h2) ->
  writes_chunks (S := S) e.
Proof.
  intros Hpay k p h Hs.
  destruct (protocol_any (elem_op e) k p h (chunks e) Hs) as (h' & r & Hrun & Ho & Hr & F).
  { intros h1 Hs1. destruct (Hpay _ _ _ Hs1) as (h2 & pa & r & H2 & Ho2 & Hs2 & F2).
    exists h2, pa, r. split; [exact H2|]. split; [exact Ho2|]. split; [exact Hs2|].
    destruct k; exact F2. }
  exists h'. split; [|auto].
  rewrite write_elem_as_op_any. mstep Hrun. reflexivity.
Qed.

(** Every document, over every sink: the writes are made in order whatever
    the sink answers, and a [Marshal] that fails only drops its own write. *)
Lemma write_elem_chunks (e : elem) : writes_chunks (S := S) e.
Proof.
  induction e as [sc|value|es IH|kvs IH] using elem_nested_ind;
    apply writes_chunks_of_op; intros k p h Hs; cbn [elem_op chunks].
  - exists (emit (scalar_text sc) h), false, None. cbn [payload].
    mstep (write_any _ _ _ (scalar_text sc) _ Hs).
    split; [reflexivity|]. split; [reflexivity|]. split; [exact Hs|apply frame_emit].
  - cbn [payload]. destruct (snd (json_Marshal value)) as [err|]; cbn [is_nil].
    + exists h, false, (Some err). mnorm.
      split; [reflexivity|]. split; [reflexivity|]. split; [exact Hs|apply frame_refl].
    + exists (emit (fst (json_Marshal value)) h), false, None.
      mstep (write_any _ _ _ (fst (json_Marshal value)) _ Hs).
      split; [reflexivity|]. split; [reflexivity|]. split; [exact Hs|apply frame_emit].
  - apply array_payload_any; [exact Hs|]. intros a c h4 _ _ Hs4.
    apply each_array_any; [exact IH|exact Hs4].
  - apply object_payload_any; [exact Hs|]. intros o h4 _ Hobj.
    destruct (each_object_any kvs IH false o h4 Hobj) as (h5 & b & Hrun & Ho & Hobj5 & F).
    exists h5. eexists. split; [exact Hrun|]. split; [exact Ho|].
    split; [exact Hobj5|exact F].
Qed.

End DocumentsAny.

Section DocumentTexts.
Context {J : Json}.

Lemma sink_after_Builder (b : Builder) ps : sink_after b ps = b ++ concat ps.
Proof.
  revert b. induction ps as [|p ps IH]; intros b; cbn [sink_after concat].
  - symmetry. apply app_nil_r.
  - rewrite IH. cbn. symmetry. apply app_assoc.
Qed.

Lemma concat_chunk_seq {A} (f : A -> list bytes) b l :
  concat (chunk_seq f b l) = joined b (map (fun x => concat (f x)) l).
Proof.
  revert b. induction l as [|x l IH]; intros b; [reflexivity|].
  cbn [chunk_seq map joined]. rewrite !concat_app, IH.
  destruct b; reflexivity.
Qed.

Lemma sent_text_array es :
  sent_text (EArray es)
  = bytes_of "[" ++ join (bytes_of ",") (map sent_text es) ++ bytes_of "]".
Proof.
  unfold sent_text at 1. cbn [chunks]. rewrite !concat_app, concat_chunk_seq.
  rewrite joined_false. reflexivity.
Qed.

Lemma sent_text_object kvs :
  sent_text (EObject kvs)
  = bytes_of "{"
    ++ join (bytes_of ",")
         (map (fun kv => let '(key, e) := kv in
                         key_text key ++ bytes_of ":" ++ sent_text e) kvs)
    ++ bytes_of "}".
Proof.
  unfold sent_text at 1. cbn [chunks]. rewrite !concat_app, concat_chunk_seq.
  rewrite joined_false. f_equal. f_equal. f_equal.
  apply map_ext. intros [key e]. unfold sent_text. rewrite concat_app.
  cbn [concat]. rewrite app_nil_r, <- app_assoc. reflexivity.
Qed.

(** When every [Marshal] succeeds the bytes sent are the JSON text. *)
Lemma sent_text_encode (e : elem) : marshals_ok e = true -> sent_text e = encode e.
Proof.
  induction e as [sc|value|es IH|kvs IH] using elem_nested_ind; intros Hok.
  - unfold sent_text. cbn. apply app_nil_r.
  - unfold sent_text. cbn in *. rewrite Hok. cbn. apply app_nil_r.
  - rewrite sent_text_array. cbn [encode]. f_equal. f_equal. f_equal.
    cbn [marshals_ok] in Hok. rewrite forallb_forall in Hok.
    apply map_ext_in. intros e He. rewrite Forall_forall in IH.
    apply IH; [apply list_elem_of_In; exact He|apply Hok; exact He].
  - rewrite sent_text_object. cbn [encode]. f_equal. f_equal. f_equal.
    cbn [marshals_ok] in Hok. rewrite forallb_forall in Hok.
    apply map_ext_in. intros [key e] He. rewrite Forall_forall in IH.
    f_equal. f_equal.
    apply (IH (key, e)); [apply list_elem_of_In; exact He|apply (Hok (key, e)); exact He].
Qed.

End DocumentTexts.

(** X1: a document written on the root slot of a new stream writer over
    any sink, whatever the sink answers to each write.  The call returns;
    the sink has received exactly the writes of the document, in order,
    also after a write has failed; [Error()] reports the error of the last
    failing write, nil when none failed; and [Finished()] is true. *)
Theorem X1_document_over_any_sink {S : Type} {WS : Writer S} {J : Json}
    (w : S) (e : elem) :
  exists h',
    write_elem e (snd (NewStreamWriter w)) (fst (NewStreamWriter w)) = Ok (tt, h')
    /\ ww_w (wrapper h') = sink_after w (chunks e)
    /\ val_Error (Some 0%nat) h'
       = Ok (last_error None (sink_errors w (chunks e)), h')
    /\ val_Finished (Some 0%nat) h' = Ok (true, h').
Proof.
  destruct (write_elem_chunks e KRoot 0%nat (fst (NewStreamWriter w)))
    as (h' & Hrun & Hw & Hr & _).
  { split; [reflexivity|exact I]. }
  cbn [retired] in Hr. cbn [sep_chunks app NewStreamWriter fst wrapper] in Hw.
  exists h'. split; [exact Hrun|]. split; [rewrite Hw; apply wwrites_sink|].
  split.
  - unfold val_Error. mstep (load_val_Ok _ _ _ Hr). cbn [val_w].
    unfold bind, get, ret. rewrite Hw, wwrites_Err. reflexivity.
  - unfold val_Finished. mstep (load_val_Ok _ _ _ Hr). reflexivity.
Qed.

(** The bytes in a [strings.Builder] after a document is written on the
    root slot. *)
Lemma output_sent_text {J : Json} (e : elem) :
  output (fun v => write_elem e v) = Ok (sent_text e).
Proof.
  destruct (write_elem_chunks e KRoot 0%nat (fst (NewStreamWriter ([] : Builder))))
    as (h' & Hrun & Hw & _).
  { split; [reflexivity|exact I]. }
  unfold output. cbn [NewStreamWriter fst] in *. rewrite Hrun, Hw.
  rewrite wwrites_sink. cbn [ww_w sep_chunks app]. rewrite sink_after_Builder.
  reflexivity.
Qed.

(** X2: on a [strings.Builder], the bytes left by writing any document on
    the root slot are the concatenation of its writes, and they are the
    JSON text of the document when every [Marshal] in it succeeds: objects
    are the comma-joined key:value pairs in call order between braces, at
    any depth of nesting. *)
Theorem X2_document_text {J : Json} (e : elem) :
  output (fun v => write_elem e v) = Ok (sent_text e)
  /\ (marshals_ok e = true -> sent_text e = encode e).
Proof. split; [apply output_sent_text|apply sent_text_encode]. Qed.

(** The object of the scenario: items a with [Int(1)] and b with [Null()]. *)
Lemma X2_document_text_witness :
  output (J := gv_Json) (fun v =>
    write_elem (EObject [("a"%string, EScalar (SInt 1));
                         ("b"%string, EScalar SNull)]) v)
  = Ok (js "{'a':1,'b':null}")
  /\ sent_text (J := gv_Json)
       (EObject [("a"%string, EScalar (SInt 1)); ("b"%string, EScalar SNull)])
     = encode (EObject [("a"%string, EScalar (SInt 1)); ("b"%string, EScalar SNull)]).
Proof.
  split.
  - exact (proj1 (X2_document_text (J := gv_Json)
             (EObject [("a"%string, EScalar (SInt 1)); ("b"%string, EScalar SNull)]))).
  - exact (proj2 (X2_document_text (J := gv_Json)
             (EObject [("a"%string, EScalar (SInt 1)); ("b"%string, EScalar SNull)]))
             eq_refl).
Defined.

(** X3: an array of N writes holds N - 1 commas whatever becomes of the
    values: an element whose [Marshal] fails adds no bytes of its own, and
    its comma is written all the same. *)
Theorem X3_array_commas_without_values {J : Json} (es : list elem) :
  output (fun v => val_Array v (Some (fun a => each (fun e => write_elem e a) es)))
  = Ok (bytes_of "[" ++ join (bytes_of ",") (map sent_text es) ++ bytes_of "]")
  /\ length (bytes_of "[" ++ join (bytes_of ",") (map sent_text es) ++ bytes_of "]")
     = (2 + total_length (map sent_text es) + (length es - 1))%nat.
Proof.
  split.
  - rewrite <- sent_text_array. apply (output_sent_text (EArray es)).
  - rewrite !length_app, length_join, length_map. cbn. lia.
Qed.

(** ** Array callbacks that also touch the outer slot *)

Section ArrayScripts.
Context {S : Type} {WS : Writer S} {J : Json}.
Implicit Types h : heap S.

Lemma bind_congr {A B} (m1 m2 : M (heap S) A) (k : A -> M (heap S) B) h :
  m1 h = m2 h -> bind m1 k h = bind m2 k h.
Proof. unfold bind. intros ->. reflexivity. Qed.


(** The memory in which the callback of [Array] runs: everything before
    the callback is the same for every callback. *)
Lemma val_Array_enter k p h :
  slot k p false h ->
  exists a c h4,
    a <> p
    /\ slot (touched k) p (paused_during k) h4
    /\ slot (KArr c false) a false h4
    /\ forall body : V -> M (heap S) unit,
         val_Array (Some p) (Some body) h
         = (body (Some a) ;;
            set_val_w a None ;;
            val_Write (Some p) (bytes_of "]") ;;
            val_postwrite (Some p) (single_of k)) h4.
Proof.
  intros Hs.
  destruct (prewrite_any _ _ _ Hs) as (h1 & Hpre & _ & Hs1 & _).
  destruct (pause_any _ _ _ Hs1) as (h2 & Hpause & _ & Hs2 & _).
  assert (Hpd : paused_during (touched k) = paused_during k) by (destruct k; reflexivity).
  rewrite Hpd in Hs2.
  set (h3 := emit (bytes_of "[") h2).
  assert (Hs3 : slot (touched k) p (paused_during k) h3) by exact Hs2.
  set (a := length (vals h3)).
  set (x := {| val_w := Some the_wrapper; val_ctx := None; val_paused := false |}).
  set (h3a := upd_vals (fun l => l ++ [x]) h3).
  set (c := length (arrs h3a)).
  set (h3b := upd_arrs (fun l => l ++ [{| arr_paused := a; arr_nonEmpty := false |}]) h3a).
  assert (Ha : vals h3b !! a = Some x).
  { cbn. apply list_lookup_middle. reflexivity. }
  set (h4 := upd_vals (fun l => <[a := {| val_w := Some the_wrapper;
                                          val_ctx := Some (jsonContextArrayPtr c);
                                          val_paused := false |}]> l) h3b).
  assert (Hs4 : slot (KArr c false) a false h4).
  { split; cbn; [apply (lookup_insert_same _ _ _ _ Ha)|].
    apply list_lookup_middle. reflexivity. }
  assert (F34 : frame None None None h3 h4).
  { eapply frame_step; [eapply frame_step|apply (frame_set_val None None)|..].
    - apply (frame_new_val None None None).
    - apply (frame_new_arr None None None).
    - exact I.
    - exact I.
    - exact I.
    - apply covered_fresh.
    - exact I.
    - exact I. }
  assert (Hap : a <> p).
  { intros E. pose proof (lookup_lt_Some _ _ _ (proj1 Hs3)) as Hlt.
    unfold a in E. lia. }
  exists a, c, h4. split; [exact Hap|].
  split; [exact (slot_frame_any _ _ _ _ _ Hs3 F34)|].
  split; [exact Hs4|].
  intros body. unfold val_Array. mstep Hpre. cbn [fst snd].
  mstep Hpause.
  mstep (write_any _ _ _ (bytes_of "[") _ Hs2).
  mstep (load_val_Ok _ _ _ (proj1 Hs3)). cbn [val_w].
  mstep (new_val_any x h3).
  mstep (new_arr_any {| arr_paused := a; arr_nonEmpty := false |} h3a).
  mstep (set_val_ctx_Ok _ _ _ (Some (jsonContextArrayPtr c)) Ha).
  mnorm. reflexivity.
Qed.

(** While the outer slot is paused, a write on it and the check that it is
    open change nothing. *)
Lemma outer_steps_skip k p h :
  slot k p true h ->
  (forall op : write_op, do_write op (Some p) h = Ok (None, h))
  /\ probe_open (Some p) h = Ok (tt, h).
Proof.
  intros [Hp _]. split.
  - intros op. apply (paused_slot_ignores op _ _ _ Hp eq_refl).
  - unfold probe_open, val_Finished. mstep (load_val_Ok _ _ _ Hp). reflexivity.
Qed.

(** A write through the handle of the callback leaves the outer slot as it
    was. *)
Lemma outer_slot_kept k p a c b h h1 :
  slot k p true h -> a <> p -> slot (KArr c b) a false h ->
  frame (Some a) (Some c) None h h1 ->
  slot k p true h1.
Proof.
  intros [Hp Hk] Hap [_ Hc] (Fv & Fa & Fo).
  split; [apply Fv; [congruence|exact Hp]|].
  destruct k as [|c' b'|key o b'].
  - exact I.
  - apply Fa; [|exact Hk]. intros [= ->]. rewrite Hk in Hc. congruence.
  - destruct Hk as [[=] _].
Qed.

(** Writes on the outer slot and checks of [Finished()] fall away. *)
Lemma asteps_skip (p : nat) (steps : list astep) :
  forall k b a c h,
    slot k p true h -> a <> p -> slot (KArr c b) a false h ->
    each (run_astep (Some p) (Some a)) steps h
    = each (fun e => write_elem e (Some a)) (aelems steps) h.
Proof.
  induction steps as [|[e|op|] steps IH]; intros k b a c h Hs Hap Ha;
    [reflexivity| | |]; cbn [each aelems run_astep].
  - destruct (write_elem_chunks e _ _ _ Ha) as (h1 & Hrun & _ & Hr & F).
    mstep Hrun. rewrite (bind_Ok _ _ _ _ _ Hrun).
    apply (IH k true a c h1); [|exact Hap|exact Hr].
    eapply outer_slot_kept; eauto.
  - mstep (proj1 (outer_steps_skip _ _ _ Hs) op). mnorm. eapply IH; eauto.
  - mstep (proj2 (outer_steps_skip _ _ _ Hs)). eapply IH; eauto.
Qed.

End ArrayScripts.

(** X4: nested-scope isolation for the root slot and for the slot of an
    array.  While the callback of an array opened from such a slot runs,
    every write on that slot, of any kind and at any place between the
    writes of the elements, is dropped, and [Finished()] on it is false:
    the call behaves exactly as the call whose callback only writes the
    elements. *)
Theorem X4_outer_writes_dropped_in_array
    {S : Type} {WS : Writer S} {J : Json}
    (h : heap S) (k : kind) (p : nat) (steps : list astep) :
  slot k p false h ->
  paused_during k = true ->
  val_Array (Some p) (Some (fun a => each (run_astep (Some p) a) steps)) h
  = val_Array (Some p) (Some (fun a => each (fun e => write_elem e a) (aelems steps))) h.
Proof.
  intros Hs Hk.
  destruct (val_Array_enter _ _ _ Hs) as (a & c & h4 & Hap & Hs4 & Ha4 & Heq).
  rewrite !Heq. apply bind_congr.
  rewrite Hk in Hs4.
  eapply asteps_skip; eauto.
Qed.

(** The array slot of a new stream writer after one element; the callback
    writes 1, tries [Null()] on its outer slot, probes it, and writes true. *)
Lemma X4_outer_writes_dropped_in_array_witness :
  slot (KArr 0 true) 1 false in_array
  /\ val_Array (Some 1%nat) (Some (fun a => each (run_astep (Some 1%nat) a) array_script))
       in_array
     = val_Array (Some 1%nat)
         (Some (fun a => each (fun e => write_elem e a) (aelems array_script))) in_array.
Proof.
  split; [split; reflexivity|].
  apply (X4_outer_writes_dropped_in_array in_array (KArr 0 true) 1 array_script);
    [split; reflexivity|reflexivity].
Defined.

(** ** Object callbacks: items, unused items, spliced maps, outer writes *)

Section ObjectScripts.
Context {S : Type} {WS : Writer S} {J : Json}.
Implicit Types h : heap S.




End ObjectScripts.



(** ** Finished, and composites without a callback *)

Section FinishedLaw.
Context {S : Type} {WS : Writer S} {J : Json}.
Implicit Types h : heap S.

(** The payload of a composite opened with a nil callback. *)
Lemma nil_callback_payload (op : write_op) (l r : bytes) k p h :
  (forall v, payload op v
             = (val_ctx_pause v true ;; val_Write v l ;; ret tt ;; val_Write v r ;; ret None)) ->
  slot k p false h ->
  exists h2 pa res,
    payload op (Some p) h = Ok (res, h2)
    /\ wrapper h2 = wwrites (wrapper h) [l; r]
    /\ slot k p pa h2
    /\ frame (Some p) (arr_of k) (obj_of k) h h2.
Proof.
  intros Hop Hs. rewrite Hop.
  destruct (pause_any _ _ _ Hs) as (h2 & Hpause & Hw2 & Hs2 & F2).
  mstep Hpause. mstep (write_any _ _ _ l _ Hs2).
  assert (Hs3 : slot k p (paused_during k) (emit l h2)) by exact Hs2.
  mstep (write_any _ _ _ r _ Hs3). mnorm.
  eexists. exists (paused_during k), None. split; [reflexivity|].
  split; [rewrite !wrapper_emit, Hw2, <- wwrites_app; reflexivity|].
  split; [exact Hs3|].
  eapply frame_trans; [exact F2|]. eapply frame_trans; apply frame_emit.
Qed.

End FinishedLaw.

(** X6: [Array(nil)] and [Object(nil)] on a slot in place, over any sink:
    the call returns, the sink has received the separator of the place and
    the two delimiters, no more, and the slot is retired as after any
    value. *)
Theorem X6_composites_without_callback
    {S : Type} {WS : Writer S} {J : Json}
    (h : heap S) (k : kind) (p : nat) :
  slot k p false h ->
  (exists h',
     val_Array (Some p) None h = Ok (tt, h')
     /\ wrapper h' = wwrites (wrapper h) (sep_chunks k ++ [bytes_of "["; bytes_of "]"])
     /\ retired k p h')
  /\ (exists h',
        val_Object (Some p) None h = Ok (tt, h')
        /\ wrapper h' = wwrites (wrapper h) (sep_chunks k ++ [bytes_of "{"; bytes_of "}"])
        /\ retired k p h').
Proof.
  intros Hs. split.
  - destruct (protocol_any (OpArray None) k p h [bytes_of "["; bytes_of "]"] Hs)
      as (h' & r & Hrun & Hw & Hr & _).
    { intros h1 Hs1.
      destruct (nil_callback_payload (OpArray None) (bytes_of "[") (bytes_of "]")
                  (touched k) p h1) as (h2 & pa & res & H2 & Hw2 & Hs2 & F2);
        [intros []; reflexivity|exact Hs1|].
      exists h2, pa, res. split; [exact H2|]. split; [exact Hw2|]. split; [exact Hs2|].
      destruct k; exact F2. }
    exists h'. split; [|split; [exact Hw|exact Hr]].
    cbn [do_write] in Hrun. apply bind_inv in Hrun as ([] & h2 & Hrun & Hret).
    injection Hret as _ <-. exact Hrun.
  - destruct (protocol_any (OpObject None) k p h [bytes_of "{"; bytes_of "}"] Hs)
      as (h' & r & Hrun & Hw & Hr & _).
    { intros h1 Hs1.
      destruct (nil_callback_payload (OpObject None) (bytes_of "{") (bytes_of "}")
                  (touched k) p h1) as (h2 & pa & res & H2 & Hw2 & Hs2 & F2);
        [intros []; reflexivity|exact Hs1|].
      exists h2, pa, res. split; [exact H2|]. split; [exact Hw2|]. split; [exact Hs2|].
      destruct k; exact F2. }
    exists h'. split; [|split; [exact Hw|exact Hr]].
    cbn [do_write] in Hrun. apply bind_inv in Hrun as ([] & h2 & Hrun & Hret).
    injection Hret as _ <-. exact Hrun.
Qed.

(** The item slot for y of an object that has emitted the item x. *)
Lemma X6_composites_without_callback_witness :
  slot (KItem "y" 0 true) 2 false in_item
  /\ (exists h',
        val_Array (J := gv_Json) (Some 2%nat) None in_item = Ok (tt, h')
        /\ wrapper h'
           = wwrites (wrapper in_item)
               (sep_chunks (J := gv_Json) (KItem "y" 0 true) ++ [bytes_of "["; bytes_of "]"])
        /\ retired (KItem "y" 0 true) 2 h')
  /\ (exists h',
        val_Object (J := gv_Json) (Some 2%nat) None in_item = Ok (tt, h')
        /\ wrapper h'
           = wwrites (wrapper in_item)
               (sep_chunks (J := gv_Json) (KItem "y" 0 true) ++ [bytes_of "{"; bytes_of "}"])
        /\ retired (KItem "y" 0 true) 2 h').
Proof.
  split; [split; [reflexivity|split; reflexivity]|].
  apply (X6_composites_without_callback (J := gv_Json) in_item (KItem "y" 0 true) 2).
  split; [reflexivity|split; reflexivity].
Defined.

(** X7: [Finished()] on a single-use slot.  On a writable slot with a
    single-value context, the root or an item of an object, [Finished()] is
    false; once a write of any kind on it has returned, whatever its
    callback did and whether or not marshaling succeeded, [Finished()] is
    true. *)
Theorem X7_Finished_after_any_write
    {S : Type} {WS : Writer S} {J : Json}
    (h : heap S) (p : nat) (op : write_op) (r : option error) (h' : heap S) :
  writable h p = true ->
  single_slot h p = true ->
  do_write op (Some p) h = Ok (r, h') ->
  val_Finished (Some p) h = Ok (false, h)
  /\ val_Finished (Some p) h' = Ok (true, h').
Proof.
  intros Hw Hs Hrun. split.
  - unfold writable in Hw. unfold val_Finished, bind, load_val.
    destruct (vals h !! p) as [x|]; [|discriminate].
    destruct (val_w x); [|discriminate].
    destruct (val_ctx x); [reflexivity|discriminate].
  - assert (exists ctx, ctx_of h p = Some ctx) as [ctx Hc].
    { unfold single_slot in Hs. destruct (ctx_of h p); [eauto|discriminate]. }
    destruct (val_prewrite_writable _ _ _ Hw Hc) as (h1 & Hpre & _).
    rewrite do_write_protocol in Hrun.
    apply bind_inv in Hrun as ([ok s] & h1' & Hpre' & Hrun).
    rewrite Hpre in Hpre'. injection Hpre' as <- <- <-. cbn [fst snd] in Hrun.
    unfold single_slot in Hs. rewrite Hc in Hs. rewrite Hs in Hrun.
    apply bind_inv in Hrun as (e & h2 & _ & Hrun).
    apply bind_inv in Hrun as ([] & h3 & Hpost & Hret).
    injection Hret as _ <-.
    destruct (val_postwrite_retires _ _ _ Hpost) as (x & Hx & Hxc).
    unfold val_Finished. mstep (load_val_Ok _ _ _ Hx). rewrite Hxc. reflexivity.
Qed.

(** [Marshal] of a function value on the root slot of a new stream
    writer. *)
Lemma X7_Finished_after_any_write_witness :
  do_write (J := gv_Json) (OpMarshal (S := Builder) (J := gv_Json) GFunc) (Some 0%nat) new_writer
  = Ok (Some "json: unsupported type"%string, after_failed_Marshal)
  /\ val_Finished (Some 0%nat) new_writer = Ok (false, new_writer)
  /\ val_Finished (Some 0%nat) after_failed_Marshal = Ok (true, after_failed_Marshal).
Proof.
  split; [reflexivity|].
  apply (X7_Finished_after_any_write (J := gv_Json) new_writer 0 (OpMarshal (S := Builder) (J := gv_Json) GFunc)
           (Some "json: unsupported type"%string) after_failed_Marshal);
    reflexivity.
Defined.

(** X8: a document written through a slot in place of any kind, over any
    sink: the root slot, the slot of an array with or without elements, an
    item of an object.  The call returns; the sink has received the
    separator of the place and then the writes of the document; the root
    slot and an item slot are finished and the item's builder is released,
    the slot of an array is ready for the next element; no other struct of
    the memory has changed. *)
Theorem X8_document_in_place
    {S : Type} {WS : Writer S} {J : Json}
    (h : heap S) (k : kind) (p : nat) (e : elem) :
  slot k p false h ->
  exists h',
    write_elem e (Some p) h = Ok (tt, h')
    /\ wrapper h' = wwrites (wrapper h) (sep_chunks k ++ chunks e)
    /\ retired k p h'
    /\ frame (Some p) (arr_of k) (obj_of k) h h'.
Proof. apply write_elem_chunks. Qed.

(** An array holding 1 and an empty object, written as the value of the
    item y of an object that has emitted the item x. *)
Lemma X8_document_in_place_witness :
  slot (KItem "y" 0 true) 2 false in_item
  /\ exists h',
       write_elem (J := gv_Json) (EArray [EScalar (SInt 1); EObject []]) (Some 2%nat) in_item
       = Ok (tt, h')
       /\ wrapper h'
          = wwrites (wrapper in_item)
              (sep_chunks (KItem "y" 0 true)
               ++ chunks (EArray [EScalar (SInt 1); EObject []]))
       /\ retired (KItem "y" 0 true) 2 h'
       /\ frame (Some 2%nat) None (Some 0%nat) in_item h'.
Proof.
  split; [split; [reflexivity|split; reflexivity]|].
  apply (X8_document_in_place (J := gv_Json) in_item (KItem "y" 0 true) 2
           (EArray [EScalar (SInt 1); EObject []])).
  split; [reflexivity|split; reflexivity].
Defined.

(** ** Handles after their callback has returned *)

Section SeveredHandles.
Context {S : Type} {WS : Writer S} {J : Json}.
Implicit Types h : heap S.

Ltac crush_run :=
  repeat (match goal with
          | H : Ok _ = Ok _ |- _ => injection H as H; subst
          | H : Panic = Ok _ |- _ => discriminate H
          | H : (_, _) = (_, _) |- _ => injection H as H; subst
          | H : context [match ?x with _ => _ end] |- _ => destruct x eqn:?
          end; cbn [upd_vals upd_arrs upd_objs upd_wrapper vals arrs objs wrapper] in *).

Lemma bind_post {A B} (m : M (heap S) A) (f g : A -> M (heap S) B) h :
  (forall a h1, m h = Ok (a, h1) -> f a h1 = g a h1) -> bind m f h = bind m g h.
Proof. intros E. unfold bind. destruct (m h) as [[a h1]|]; [apply E|]; reflexivity. Qed.

Lemma val_prewrite_stores (v : V) h r h1 :
  val_prewrite v h = Ok (r, h1) ->
  vals h1 = vals h /\ length (objs h1) = length (objs h).
Proof.
  unfold val_prewrite, ctx_prewrite, jsonContextSingle_prewrite,
    jsonContextArray_prewrite, jsonContextObjectItem_prewrite, obj_prewrite,
    set_arr_nonEmpty, set_obj_nonEmpty, store_arr, store_obj, Write,
    load_val, load_arr, load_obj, bind, ret, panic.
  intros H. crush_run; rewrite ?length_insert; auto.
Qed.

Lemma val_ctx_pause_lengths (v : V) on h h1 :
  val_ctx_pause v on h = Ok (tt, h1) ->
  length (vals h1) = length (vals h) /\ length (objs h1) = length (objs h).
Proof.
  unfold val_ctx_pause, ctx_pause, jsonContextSingle_pause, jsonContextArray_pause,
    jsonContextObjectItem_pause, set_val_paused, set_obj_paused, store_val, store_obj,
    load_val, load_arr, load_obj, bind, ret, panic.
  intros H. crush_run; rewrite ?length_insert; auto.
Qed.

Lemma val_Write_stores (v : V) p h h1 :
  val_Write v p h = Ok (tt, h1) -> vals h1 = vals h /\ objs h1 = objs h.
Proof.
  unfold val_Write, Write, load_val, bind, ret, panic.
  intros H. crush_run; auto.
Qed.

Lemma stays_cut_refl h : stays_cut h h.
Proof. split; auto. Qed.

Lemma stays_cut_trans h h1 h2 : stays_cut h h1 -> stays_cut h1 h2 -> stays_cut h h2.
Proof. intros [A B] [C D]. split; auto. Qed.

Lemma stays_cut_same h h1 : vals h1 = vals h -> objs h1 = objs h -> stays_cut h h1.
Proof. intros Hv Ho. unfold stays_cut, severed, closed. rewrite Hv, Ho. auto. Qed.

(** An assignment to a field other than [w] cuts nothing loose. *)
Lemma stays_cut_val p (y : val) h x :
  vals h !! p = Some x -> val_w y = val_w x ->
  stays_cut h (upd_vals (fun l => <[p := y]> l) h).
Proof.
  intros Hp Hw. split; [|auto]. intros a (z & Ha & Hz). unfold severed. cbn.
  destruct (decide (p = a)) as [->|Hne].
  - exists y. split; [apply (lookup_insert_same _ _ _ _ Hp)|]. congruence.
  - exists z. rewrite list_lookup_insert_ne by exact Hne. auto.
Qed.

Lemma stays_cut_obj o (y : obj) h x :
  objs h !! o = Some x -> obj_w y = obj_w x ->
  stays_cut h (upd_objs (fun l => <[o := y]> l) h).
Proof.
  intros Ho Hw. split; [auto|]. intros a (z & Ha & Hz). unfold closed. cbn.
  destruct (decide (o = a)) as [->|Hne].
  - exists y. split; [apply (lookup_insert_same _ _ _ _ Ho)|]. congruence.
  - exists z. rewrite list_lookup_insert_ne by exact Hne. auto.
Qed.

Lemma ctx_pause_stays_cut ctx on h h1 :
  ctx_pause ctx on h = Ok (tt, h1) -> stays_cut h h1.
Proof.
  unfold ctx_pause, jsonContextSingle_pause, jsonContextArray_pause,
    jsonContextObjectItem_pause, set_val_paused, set_obj_paused, store_val, store_obj,
    load_val, load_arr, load_obj, bind, ret, panic.
  intros H. crush_run;
    first [eapply stays_cut_val; eauto; reflexivity
          |eapply stays_cut_obj; eauto; reflexivity].
Qed.

Lemma val_postwrite_stays_cut (v : V) single h h1 :
  val_postwrite v single h = Ok (tt, h1) -> stays_cut h h1.
Proof.
  unfold val_postwrite. destruct v as [p|]; [|discriminate].
  intros H. apply bind_inv in H as (x & h0 & Hload & H).
  unfold load_val in Hload. destruct (vals h !! p); [|discriminate].
  injection Hload as -> ->.
  destruct (val_ctx x) as [ctx|]; [|injection H as <-; apply stays_cut_refl].
  apply bind_inv in H as ([] & h2 & Hpause & H).
  eapply stays_cut_trans; [apply (ctx_pause_stays_cut _ _ _ _ Hpause)|].
  destruct single; [|injection H as <-; apply stays_cut_refl].
  unfold set_val_ctx in H. apply bind_inv in H as (y & h3 & Hload & H).
  unfold load_val in Hload. destruct (vals h2 !! p) eqn:Hp; [|discriminate].
  injection Hload as -> ->. injection H as <-.
  eapply stays_cut_val; eauto.
Qed.

(** Every write on a slot without a sink is refused and changes nothing. *)
Lemma severed_slot_ignores (op : write_op) a h :
  severed h a -> do_write op (Some a) h = Ok (None, h).
Proof.
  intros (x & Ha & Hw). rewrite do_write_protocol. unfold val_prewrite.
  mstep (load_val_Ok _ _ _ Ha). rewrite Hw. reflexivity.
Qed.

(** [Error] through a slot without a sink is nil, whatever the wrapper
    has recorded. *)
Lemma severed_Error a h : severed h a -> val_Error (Some a) h = Ok (None, h).
Proof.
  intros (x & Ha & Hw). unfold val_Error. mstep (load_val_Ok _ _ _ Ha).
  rewrite Hw. reflexivity.
Qed.

(** [Item] on a builder without a sink writes nothing, and hands out the
    nil handle or a slot without a sink. *)
Lemma closed_Item (key : string) o h :
  closed h o ->
  exists v h1,
    obj_Item (Some o) key h = Ok (v, h1)
    /\ wrapper h1 = wrapper h
    /\ closed h1 o
    /\ forall op : write_op, do_write op v h1 = Ok (None, h1).
Proof.
  intros (x & Ho & Hw). unfold obj_Item. mstep (load_obj_Ok _ _ _ Ho).
  destruct (obj_paused x); cbn [negb].
  - exists None, h. mnorm. split; [reflexivity|]. split; [reflexivity|].
    split; [exists x; auto|]. intros op. apply nil_slot_ignores.
  - mstep (set_obj_paused_Ok _ _ _ true Ho).
    rewrite (bind_Ok _ _ _ _ _ (new_val_any _ _)). rewrite Hw.
    eexists. eexists. split; [reflexivity|]. split; [reflexivity|]. split.
    + eexists. split; [cbn; apply (lookup_insert_same _ _ _ _ Ho)|]. reflexivity.
    + intros op. apply severed_slot_ignores. eexists. split.
      * cbn. apply list_lookup_middle. reflexivity.
      * reflexivity.
Qed.

Lemma set_val_w_severed a h h1 :
  set_val_w a None h = Ok (tt, h1) -> severed h1 a /\ objs h1 = objs h.
Proof.
  unfold set_val_w, store_val, load_val, bind, ret, panic. intros H.
  destruct (vals h !! a) as [x|] eqn:Ha; [|discriminate].
  injection H as <-. split; [|reflexivity].
  eexists. split; [cbn; apply (lookup_insert_same _ _ _ _ Ha)|]. reflexivity.
Qed.

Lemma set_obj_w_closed o h h1 :
  set_obj_w o None h = Ok (tt, h1) -> closed h1 o.
Proof.
  unfold set_obj_w, store_obj, load_obj, bind, ret, panic. intros H.
  destruct (objs h !! o) as [x|] eqn:Ho; [|discriminate].
  injection H as <-.
  eexists. split; [cbn; apply (lookup_insert_same _ _ _ _ Ho)|]. reflexivity.
Qed.

(** The closing bracket and the postwrite leave cut handles cut. *)
Lemma closing_stays_cut p br single h h' :
  (val_Write (Some p) br ;; val_postwrite (Some p) single) h = Ok (tt, h') ->
  stays_cut h h'.
Proof.
  intros H. apply bind_inv in H as ([] & h1 & Hw & H).
  apply val_Write_stores in Hw as [Hv Ho].
  eapply stays_cut_trans; [apply (stays_cut_same _ _ Hv Ho)|].
  apply (val_postwrite_stays_cut _ _ _ _ H).
Qed.

(** The callback of [Array] is handed the slot allocated at the end of the
    slot store. *)
Lemma val_Array_handle (fn : V -> M (heap S) unit) p h :
  val_Array (Some p) (Some fn) h
  = val_Array (Some p) (Some (fun _ => fn (Some (length (vals h))))) h.
Proof.
  unfold val_Array. apply bind_post. intros [ok s] h1 Hpre.
  destruct ok; [|reflexivity]. cbn [fst snd].
  apply val_prewrite_stores in Hpre as [Hv1 _].
  apply bind_post. intros [] h2 Hpause.
  apply val_ctx_pause_lengths in Hpause as [Hv2 _].
  apply bind_post. intros [] h3 Hwr.
  apply val_Write_stores in Hwr as [Hv3 _].
  apply bind_congr.
  apply bind_post. intros x h4 Hload.
  unfold load_val in Hload. destruct (vals h3 !! p); [|discriminate].
  injection Hload as -> ->.
  apply bind_post. intros a h5 Hnew. injection Hnew as <- <-.
  rewrite Hv3, Hv2, Hv1. reflexivity.
Qed.

(** The callback of [Object] is handed the builder allocated at the end of
    the builder store. *)
Lemma val_Object_handle (fn : K -> M (heap S) unit) p h :
  val_Object (Some p) (Some fn) h
  = val_Object (Some p) (Some (fun _ => fn (Some (length (objs h))))) h.
Proof.
  unfold val_Object. apply bind_post. intros [ok s] h1 Hpre.
  destruct ok; [|reflexivity]. cbn [fst snd].
  apply val_prewrite_stores in Hpre as [_ Ho1].
  apply bind_post. intros [] h2 Hpause.
  apply val_ctx_pause_lengths in Hpause as [_ Ho2].
  apply bind_post. intros [] h3 Hwr.
  apply val_Write_stores in Hwr as [_ Ho3].
  apply bind_congr.
  apply bind_post. intros x h4 Hload.
  unfold load_val in Hload. destruct (vals h3 !! p); [|discriminate].
  injection Hload as -> ->.
  apply bind_post. intros a h5 Hnew. injection Hnew as <- <-.
  rewrite Ho3, Ho2, Ho1. reflexivity.
Qed.

(** X9: whatever the callback of [Array] does, once [Array] has returned
    the handle it passed to the callback is dead: either the call was
    refused and nothing changed, or every later write through the handle
    (one kept by the callback, say) is refused and changes nothing, and
    [Error()] through it is nil whatever the sink has answered. *)
Theorem X9_array_handle_dead_after_return (fn : V -> M (heap S) unit) p h h' :
  val_Array (Some p) (Some fn) h = Ok (tt, h') ->
  val_Array (Some p) (Some fn) h
  = val_Array (Some p) (Some (fun _ => fn (Some (length (vals h))))) h
  /\ (h' = h
      \/ (forall op : write_op,
            do_write op (Some (length (vals h))) h' = Ok (None, h'))
         /\ val_Error (Some (length (vals h))) h' = Ok (None, h')).
Proof.
  intros H. split; [apply val_Array_handle|].
  unfold val_Array in H. apply bind_inv in H as ([ok s] & h1 & Hpre & H).
  destruct ok; cbn [fst snd] in H.
  2:{ left. injection H as <-. apply (val_prewrite_refused _ _ _ _ Hpre). }
  right.
  enough (Hsev : severed h' (length (vals h))).
  { split; [intros op; apply severed_slot_ignores|apply severed_Error]; exact Hsev. }
  apply val_prewrite_stores in Hpre as [Hv1 _].
  apply bind_inv in H as ([] & h2 & Hpause & H).
  apply val_ctx_pause_lengths in Hpause as [Hv2 _].
  apply bind_inv in H as ([] & h3 & Hwr & H).
  apply val_Write_stores in Hwr as [Hv3 _].
  apply bind_inv in H as ([] & h4 & Hbody & H).
  apply closing_stays_cut in H as [Hcut _]. apply Hcut.
  apply bind_inv in Hbody as (x & h5 & Hload & Hbody).
  unfold load_val in Hload. destruct (vals h3 !! p); [|discriminate].
  injection Hload as -> ->.
  apply bind_inv in Hbody as (a & h6 & Hnew & Hbody). injection Hnew as <- <-.
  apply bind_inv in Hbody as (c & h7 & _ & Hbody).
  apply bind_inv in Hbody as ([] & h8 & _ & Hbody).
  apply bind_inv in Hbody as ([] & h9 & _ & Hbody).
  apply set_val_w_severed in Hbody as [Hs _].
  rewrite <- Hv1, <- Hv2, <- Hv3. exact Hs.
Qed.

(** X10: whatever the callback of [Object] does, once [Object] has
    returned the builder it passed to the callback is dead: either the call
    was refused and nothing changed, or every later [Item] on the builder
    writes nothing and hands out a handle on which every write is refused. *)
Theorem X10_builder_dead_after_return (fn : K -> M (heap S) unit) p h h' :
  val_Object (Some p) (Some fn) h = Ok (tt, h') ->
  val_Object (Some p) (Some fn) h
  = val_Object (Some p) (Some (fun _ => fn (Some (length (objs h))))) h
  /\ (h' = h
      \/ forall key : string, exists v h1,
           obj_Item (Some (length (objs h))) key h' = Ok (v, h1)
           /\ wrapper h1 = wrapper h'
           /\ forall op : write_op, do_write op v h1 = Ok (None, h1)).
Proof.
  intros H. split; [apply val_Object_handle|].
  unfold val_Object in H. apply bind_inv in H as ([ok s] & h1 & Hpre & H).
  destruct ok; cbn [fst snd] in H.
  2:{ left. injection H as <-. apply (val_prewrite_refused _ _ _ _ Hpre). }
  right. intros key.
  assert (Hc : closed h' (length (objs h))).
  { apply val_prewrite_stores in Hpre as [_ Ho1].
    apply bind_inv in H as ([] & h2 & Hpause & H).
    apply val_ctx_pause_lengths in Hpause as [_ Ho2].
    apply bind_inv in H as ([] & h3 & Hwr & H).
    apply val_Write_stores in Hwr as [_ Ho3].
    apply bind_inv in H as ([] & h4 & Hbody & H).
    apply closing_stays_cut in H as [_ Hcut]. apply Hcut.
    apply bind_inv in Hbody as (x & h5 & Hload & Hbody).
    unfold load_val in Hload. destruct (vals h3 !! p); [|discriminate].
    injection Hload as -> ->.
    apply bind_inv in Hbody as (a & h6 & Hnew & Hbody). injection Hnew as <- <-.
    apply bind_inv in Hbody as ([] & h7 & _ & Hbody).
    apply set_obj_w_closed in Hbody.
    rewrite <- Ho1, <- Ho2, <- Ho3. exact Hbody. }
  destruct (closed_Item key _ _ Hc) as (v & h1' & HI & Hw & _ & Hd).
  exists v, h1'. auto.
Qed.

End SeveredHandles.

(** A callback that keeps its handle: after [Array] has returned, the
    variable holds the dead handle. *)
Lemma X9_array_handle_dead_after_return_witness :
  val_Array (J := gv_Json) (Some 0%nat) (Some keeps_handle) new_writer
  = Ok (tt, array_returned)
  /\ lookup_local "kept" (locals array_returned) = Some (length (vals new_writer))
  /\ (array_returned = new_writer
      \/ (forall op : write_op (J := gv_Json),
            do_write op (Some (length (vals new_writer))) array_returned
            = Ok (None, array_returned))
         /\ val_Error (Some (length (vals new_writer))) array_returned
            = Ok (None, array_returned)).
Proof.
  split; [reflexivity|]. split; [reflexivity|].
  apply (X9_array_handle_dead_after_return (J := gv_Json) keeps_handle 0 new_writer
           array_returned).
  reflexivity.
Defined.

(** A callback that keeps its builder: after [Object] has returned, the
    variable holds the dead builder. *)
Lemma X10_builder_dead_after_return_witness :
  val_Object (J := gv_Json) (Some 0%nat) (Some keeps_builder) new_writer
  = Ok (tt, object_returned)
  /\ lookup_local "kept" (locals object_returned) = Some (length (objs new_writer))
  /\ (object_returned = new_writer
      \/ forall key : string, exists v h1,
           obj_Item (Some (length (objs new_writer))) key object_returned = Ok (v, h1)
           /\ wrapper h1 = wrapper object_returned
           /\ forall op : write_op (J := gv_Json), do_write op v h1 = Ok (None, h1)).
Proof.
  split; [reflexivity|]. split; [reflexivity|].
  apply (X10_builder_dead_after_return (J := gv_Json) keeps_builder 0 new_writer
           object_returned).
  reflexivity.
Defined.

(** ** What [Error] and [Finished] report *)

Section Reports.
Context {S : Type} {WS : Writer S} {J : Json}.
Implicit Types h : heap S.

Lemma last_error_nil (e0 : option error) rs :
  last_error e0 rs = None <-> e0 = None /\ Forall (fun r => r = None) rs.
Proof.
  revert e0. induction rs as [|[e|] rs IH]; intros e0; cbn [last_error].
  - split; [intros ->; auto|intros [-> _]; reflexivity].
  - rewrite IH. split; [intros [? _]; discriminate|].
    intros [_ H]. inversion H; discriminate.
  - rewrite IH. split; intros [He H]; (split; [exact He|]).
    + constructor; [reflexivity|exact H].
    + inversion H; assumption.
Qed.

(** [Error] through a handle that refers to the wrapper. *)
Lemma live_Error p x h :
  vals h !! p = Some x -> val_w x = Some the_wrapper ->
  val_Error (Some p) h = Ok (Err (wrapper h), h).
Proof.
  intros Hp Hw. unfold val_Error. mstep (load_val_Ok _ _ _ Hp). rewrite Hw.
  reflexivity.
Qed.

Lemma retired_live k p h :
  retired k p h -> exists x, vals h !! p = Some x /\ val_w x = Some the_wrapper.
Proof.
  destruct k; cbn [retired]; [intros H|intros [H _]|intros [H _]];
    eexists; (split; [exact H|reflexivity]).
Qed.

(** X11: one look at [Error()] after a document tells whether anything
    went wrong.  After any document written through a slot in place, over
    any sink, [Error()] on the slot is nil exactly when no error was
    recorded before and every write of the document succeeded. *)
Theorem X11_Error_nil_iff_no_write_failed h (k : kind) (p : nat) (e : elem) :
  slot k p false h ->
  exists h' r,
    write_elem e (Some p) h = Ok (tt, h')
    /\ val_Error (Some p) h' = Ok (r, h')
    /\ (r = None
        <-> Err (wrapper h) = None
            /\ Forall (fun x => x = None)
                 (sink_errors (ww_w (wrapper h)) (sep_chunks k ++ chunks e))).
Proof.
  intros Hs. destruct (write_elem_chunks e k p h Hs) as (h' & Hrun & Hw & Hr & _).
  destruct (retired_live _ _ _ Hr) as (x & Hp & Hx).
  exists h', (Err (wrapper h')). split; [exact Hrun|].
  split; [apply (live_Error _ _ _ Hp Hx)|].
  rewrite Hw, wwrites_Err. apply last_error_nil.
Qed.

(** X12: the slot of an array is never finished.  [Finished()] on it is
    false before and after any sequence of elements written through it. *)
Theorem X12_array_slot_never_finished h (c a : nat) (b : bool) (es : list elem) :
  slot (KArr c b) a false h ->
  exists h',
    each (fun e => write_elem e (Some a)) es h = Ok (tt, h')
    /\ val_Finished (Some a) h = Ok (false, h)
    /\ val_Finished (Some a) h' = Ok (false, h').
Proof.
  intros Hs.
  assert (Hall : Forall (writes_chunks (S := S)) es).
  { apply Forall_forall. intros e _. apply write_elem_chunks. }
  destruct (each_array_any es Hall b a c h Hs) as (h' & b' & Hrun & _ & Hs' & _).
  exists h'. split; [exact Hrun|].
  destruct Hs as [Hv _], Hs' as [Hv' _]. unfold val_Finished. split.
  - mstep (load_val_Ok _ _ _ Hv). reflexivity.
  - mstep (load_val_Ok _ _ _ Hv'). reflexivity.
Qed.

(** X13: the nil handle that [Item] returns while the builder is held by
    an earlier item.  Every write method on it returns at once and changes
    nothing, but [Finished()] and [Error()] on it panic. *)
Theorem X13_Finished_and_Error_on_nil_item h (q : nat) (x : obj) (key : string) :
  objs h !! q = Some x ->
  obj_paused x = true ->
  (item <- obj_Item (Some q) key ;; val_Finished item) h = Panic
  /\ (item <- obj_Item (Some q) key ;; val_Error item) h = Panic
  /\ forall op : write_op,
       (item <- obj_Item (Some q) key ;; do_write op item) h = Ok (None, h).
Proof.
  intros Hq Hp. split; [|split; [|intros op]];
    mstep (obj_Item_paused _ _ _ key Hq Hp).
  - reflexivity.
  - reflexivity.
  - apply nil_slot_ignores.
Qed.

End Reports.

(** The item y of an object, written with 5 over a [strings.Builder]. *)
Lemma X11_Error_nil_iff_no_write_failed_witness :
  slot (KItem "y" 0 true) 2 false in_item
  /\ exists h' r,
       write_elem (J := gv_Json) (EScalar (SInt 5)) (Some 2%nat) in_item = Ok (tt, h')
       /\ val_Error (Some 2%nat) h' = Ok (r, h')
       /\ (r = None
           <-> Err (wrapper in_item) = None
               /\ Forall (fun x => x = None)
                    (sink_errors (ww_w (wrapper in_item))
                       (sep_chunks (KItem "y" 0 true) ++ chunks (EScalar (SInt 5))))).
Proof.
  split; [split; [reflexivity|split; reflexivity]|].
  apply (X11_Error_nil_iff_no_write_failed (J := gv_Json) in_item (KItem "y" 0 true) 2
           (EScalar (SInt 5))).
  split; [reflexivity|split; reflexivity].
Defined.

(** The array slot of a new stream writer, written with null and an empty
    array. *)
Lemma X12_array_slot_never_finished_witness :
  slot (KArr 0 true) 1 false in_array
  /\ exists h',
       each (fun e => write_elem (J := gv_Json) e (Some 1%nat))
         [EScalar SNull; EArray []] in_array = Ok (tt, h')
       /\ val_Finished (Some 1%nat) in_array = Ok (false, in_array)
       /\ val_Finished (Some 1%nat) h' = Ok (false, h').
Proof.
  split; [split; reflexivity|].
  apply (X12_array_slot_never_finished (J := gv_Json) in_array 0 1 true
           [EScalar SNull; EArray []]).
  split; reflexivity.
Defined.

(** The builder held by the unwritten item y. *)
Lemma X13_Finished_and_Error_on_nil_item_witness :
  (item <- obj_Item (Some 0%nat) "z" ;; val_Finished item) in_item = Panic
  /\ (item <- obj_Item (Some 0%nat) "z" ;; val_Error item) in_item = Panic
  /\ forall op : write_op (J := gv_Json),
       (item <- obj_Item (Some 0%nat) "z" ;; do_write op item) in_item = Ok (None, in_item).
Proof.
  apply (X13_Finished_and_Error_on_nil_item (J := gv_Json) in_item 0
           {| obj_w := Some the_wrapper; obj_nonEmpty := true; obj_paused := true |} "z");
    reflexivity.
Defined.

(** ** Documents over the limited sink of the test file *)

Section LimitSink.
Context {J : Json}.

Lemma sink_after_limit b L ps :
  sink_after {| sbw_Builder := b; Limit := L |} ps
  = {| sbw_Builder := b ++ concat ps; Limit := L |}.
Proof.
  revert b. induction ps as [|p ps IH]; intros b; cbn [sink_after concat].
  - rewrite app_nil_r. reflexivity.
  - change (fst (io_Write {| sbw_Builder := b; Limit := L |} p))
      with {| sbw_Builder := b ++ p; Limit := L |}.
    rewrite IH, <- app_assoc. reflexivity.
Qed.

(** Over a sink within its limit, every write succeeds exactly when the
    sink is within its limit at the end. *)
Lemma sink_errors_limit b L ps :
  Z.of_nat (length b) <= L ->
  Forall (fun r => r = None) (sink_errors {| sbw_Builder := b; Limit := L |} ps)
  <-> Z.of_nat (length (b ++ concat ps)) <= L.
Proof.
  revert b. induction ps as [|p ps IH]; intros b Hb; cbn [sink_errors concat].
  - rewrite app_nil_r. split; [intros _; exact Hb|constructor].
  - change (fst (io_Write {| sbw_Builder := b; Limit := L |} p))
      with {| sbw_Builder := b ++ p; Limit := L |}.
    change (snd (snd (io_Write {| sbw_Builder := b; Limit := L |} p)))
      with (if L <? Z.of_nat (length (b ++ p))
            then Some ("Buffer length " ++ FormatInt (Z.of_nat (length (b ++ p)))
                       ++ " exceeds limit " ++ FormatInt L ++ ".")%string
            else None).
    rewrite app_assoc.
    destruct (Z.ltb_spec L (Z.of_nat (length (b ++ p)))) as [Hlt|Hle].
    + split; [intros H; inversion H; discriminate|].
      intros H. rewrite length_app in H. lia.
    + rewrite <- (IH _ Hle). split; [intros H; inversion H; assumption|].
      intros H. constructor; [reflexivity|exact H].
Qed.

(** X14: a document over the limited sink of the test file.  The writer
    does not stop at a failed write: the sink receives every byte of the
    document, also past its limit, and [Error()] at the end is nil exactly
    when the document fits within the limit. *)
Theorem X14_document_over_limit_sink (L : Z) (e : elem) :
  0 <= L ->
  exists h' r,
    write_elem e (snd (NewStreamWriter (limit_sink L))) (fst (NewStreamWriter (limit_sink L)))
    = Ok (tt, h')
    /\ sbw_Builder (ww_w (wrapper h')) = sent_text e
    /\ val_Error (Some 0%nat) h' = Ok (r, h')
    /\ (r = None <-> Z.of_nat (length (sent_text e)) <= L).
Proof.
  intros HL.
  destruct (write_elem_chunks e KRoot 0%nat (fst (NewStreamWriter (limit_sink L))))
    as (h' & Hrun & Hw & Hr & _).
  { split; [reflexivity|exact I]. }
  cbn [retired] in Hr. cbn [sep_chunks app NewStreamWriter fst wrapper] in Hw.
  exists h', (Err (wrapper h')). split; [exact Hrun|].
  split; [|split].
  - rewrite Hw, wwrites_sink. cbn [ww_w]. unfold limit_sink.
    rewrite sink_after_limit. reflexivity.
  - apply (live_Error _ _ _ Hr). reflexivity.
  - rewrite Hw, wwrites_Err. cbn [ww_w Err]. rewrite last_error_nil.
    unfold limit_sink. rewrite sink_errors_limit by (cbn; lia).
    cbn [app]. unfold sent_text. split; [intros [_ H]; exact H|auto].
Qed.

End LimitSink.

(** The array of the test file, 13 bytes, over a sink with limit 10. *)
Lemma X14_document_over_limit_sink_witness :
  0 <= 10
  /\ exists h' r,
       write_elem (J := gv_Json) (EArray [EScalar (SInt 12345); EScalar (SInt 67890)])
         (snd (NewStreamWriter (limit_sink 10))) (fst (NewStreamWriter (limit_sink 10)))
       = Ok (tt, h')
       /\ sbw_Builder (ww_w (wrapper h'))
          = sent_text (EArray [EScalar (SInt 12345); EScalar (SInt 67890)])
       /\ val_Error (Some 0%nat) h' = Ok (r, h')
       /\ (r = None
           <-> Z.of_nat (length (sent_text (J := gv_Json)
                 (EArray [EScalar (SInt 12345); EScalar (SInt 67890)]))) <= 10).
Proof.
  split; [lia|].
  apply (X14_document_over_limit_sink (J := gv_Json) 10
           (EArray [EScalar (SInt 12345); EScalar (SInt 67890)])).
  lia.
Defined.
